(** * eodatasets2.model: path resolution and the valid-data region

    A shallow embedding of [resolve_absolute_offset] and [valid_region]
    from [eodatasets2/model.py], together with the parts of the Python
    runtime and of the libraries they call (ordered dicts, [sorted],
    [pathlib], numpy arrays, the rasterio reader and the shapely calls),
    followed by the properties of the design document that concern them. *)

From Stdlib Require Import ZArith QArith Qcanon String Ascii Lia Permutation.
From stdpp Require Import base decidable option list strings sorting pretty.

Local Open Scope string_scope.
Local Open Scope list_scope.

(** ** Python runtime *)

(** Exceptions the modelled code can raise.  The design document calls
    [ValueError] the "InputError" and [NotImplementedError] the
    "UnsupportedFormatError"; [RasterioIOError] is what [rasterio.open]
    raises for a location it cannot open. *)
Inductive exception : Type :=
  | ValueError (msg : string)
  | NotImplementedError (msg : string)
  | RasterioIOError (location : string)
  | IndexError (msg : string)
  | AttributeError (msg : string)
  | TypeError (msg : string).

Inductive result (A : Type) : Type :=
  | Ok (value : A)
  | Raise (exc : exception).
Arguments Ok {A} value.
Arguments Raise {A} exc.

Global Instance result_ret : MRet result := fun A v => Ok v.
Global Instance result_bind : MBind result := fun A B k r =>
  match r with
  | Ok v => k v
  | Raise exc => Raise exc
  end.

(** *** Strings *)

Module Str.

(** [s.split(sep)] for a one-character separator. *)
Fixpoint split (sep : ascii) (s : string) : list string :=
  match s with
  | EmptyString => [EmptyString]
  | String ch rest =>
      if Ascii.eqb ch sep then EmptyString :: split sep rest
      else match split sep rest with
           | [] => [String ch EmptyString]
           | w :: ws => String ch w :: ws
           end
  end.

(** [s.lstrip(ch)] *)
Fixpoint lstrip (ch : ascii) (s : string) : string :=
  match s with
  | String ch' rest => if Ascii.eqb ch' ch then lstrip ch rest else s
  | EmptyString => EmptyString
  end.

(** [s.startswith(p)] *)
Definition startswith (s p : string) : bool := String.prefix p s.

(** [s.endswith(p)] *)
Definition endswith (s p : string) : bool :=
  String.prefix (String.rev p) (String.rev s).

(** [sep.join(ls)] *)
Definition join (sep : string) (ls : list string) : string :=
  String.concat sep ls.

End Str.

(** *** Insertion-ordered dictionaries

    A Python [dict] keeps its keys in insertion order; assigning to a key
    that is present replaces the value and keeps the key's position. *)

Section PyDict.
Context {K V : Type} `{EqDecision K}.

Definition dict : Type := list (K * V).

Fixpoint dict_get (dm : dict) (k : K) : option V :=
  match dm with
  | [] => None
  | (k', v) :: rest => if decide (k' = k) then Some v else dict_get rest k
  end.

Fixpoint dict_set (dm : dict) (k : K) (v : V) : dict :=
  match dm with
  | [] => [(k, v)]
  | (k', v') :: rest =>
      if decide (k' = k) then (k', v) :: rest
      else (k', v') :: dict_set rest k v
  end.

Definition dict_items (dm : dict) : list (K * V) := dm.
Definition dict_keys (dm : dict) : list K := fmap fst dm.
Definition dict_values (dm : dict) : list V := fmap snd dm.

(** [dict(pairs)]: later pairs win. *)
Definition dict_of_pairs (pairs : list (K * V)) : dict :=
  fold_left (fun dm kv => dict_set dm (fst kv) (snd kv)) pairs [].

End PyDict.
Arguments dict K V : clear implicits.

(** *** [sorted(xs, key=...)]: a stable sort, ascending in the key. *)

Section Sorted.
Context {A : Type} (key : A -> nat).

Fixpoint insert_by_key (x : A) (l : list A) : list A :=
  match l with
  | [] => [x]
  | y :: l' =>
      if (key x <=? key y)%nat then x :: y :: l' else y :: insert_by_key x l'
  end.

Fixpoint sorted (l : list A) : list A :=
  match l with
  | [] => []
  | x :: l' => insert_by_key x (sorted l')
  end.

(** The order [sorted] establishes. *)
Definition ascending (l : list A) : Prop :=
  StronglySorted (fun x y => key x <= key y) l.

End Sorted.

(** ** pathlib (POSIX flavour) *)

Module pathlib.

(** A parsed path: [_root] is the empty string, "/" or "//"; [_parts]
    holds the components, the root first when there is one. *)
Record Path : Type := mkPath { _root : string; _parts : list string }.

Definition sep : ascii := "/"%char.

Definition splitroot (part : string) : string * string :=
  match part with
  | String ch _ =>
      if Ascii.eqb ch sep then
        let stripped_part := Str.lstrip sep part in
        if (String.length part - String.length stripped_part =? 2)%nat
        then ("//", stripped_part)
        else ("/", stripped_part)
      else ("", part)
  | EmptyString => ("", part)
  end.

Definition components (rel : string) : list string :=
  filter (fun x => x <> "" /\ x <> ".") (Str.split sep rel).

(** The loop of [parse_parts], which walks the arguments from the last
    to the first and stops at the first one that is rooted. *)
Fixpoint parse_reversed (it : list string) : string * list string :=
  match it with
  | [] => ("", [])
  | part :: it' =>
      if decide (part = "") then parse_reversed it'
      else
        let '(root, rel) := splitroot part in
        if decide (root = "") then
          let '(root', parsed) := parse_reversed it' in
          (root', parsed ++ components rel)
        else (root, components rel)
  end.

Definition parse_parts (parts : list string) : Path :=
  let '(root, parsed) := parse_reversed (rev parts) in
  if decide (root = "") then mkPath root parsed
  else mkPath root (root :: parsed).

(** [Path(s)] *)
Definition of_string (s : string) : Path := parse_parts [s].

(** [str(p)] *)
Definition str (p : Path) : string :=
  let formatted :=
    if decide (_root p = "") then Str.join "/" (_parts p)
    else _root p +:+ Str.join "/" (tail (_parts p)) in
  if decide (formatted = "") then "." else formatted.

(** [p / key] *)
Definition truediv (p : Path) (key : string) : Path :=
  let other := parse_parts [key] in
  if decide (_root other = "") then mkPath (_root p) (_parts p ++ _parts other)
  else other.

Definition is_absolute (p : Path) : bool :=
  bool_decide (_root p <> "").

(** [p.absolute()], with the process's working directory [cwd]. *)
Definition absolute (cwd : string) (p : Path) : Path :=
  if is_absolute p then p else parse_parts (cwd :: _parts p).

(** [p.name] *)
Definition name (p : Path) : string :=
  let anchor := if decide (_root p = "") then 0%nat else 1%nat in
  if (length (_parts p) =? anchor)%nat then ""
  else List.last (_parts p) "".

(** [p.suffixes] *)
Definition suffixes (p : Path) : list string :=
  let nm := name p in
  if Str.endswith nm "." then []
  else fmap (fun suffix => "." +:+ suffix)
           (tail (Str.split "."%char (Str.lstrip "."%char nm))).

End pathlib.

(** ** [resolve_absolute_offset] *)

Definition resolve_absolute_offset
    (cwd : string) (dataset_path : pathlib.Path) (offset : string)
    (target_path : option pathlib.Path) : string :=
  let dataset_path := pathlib.absolute cwd dataset_path in
  let inside :=
    match target_path with
    | Some target_path =>
        Str.startswith (pathlib.str (pathlib.absolute cwd target_path))
                       (pathlib.str dataset_path)
    | None => false
    end in
  if inside then offset
  else if bool_decide (".tar" ∈ pathlib.suffixes dataset_path)
  then "tar:" +:+ pathlib.str dataset_path +:+ "!" +:+ offset
  else pathlib.str (pathlib.truediv dataset_path offset).

(** ** numpy arrays

    A two-dimensional array: its shape (rows, columns) and its elements in
    row-major order.  The rasters read here hold integers. *)

Record ndarray (A : Type) : Type := mk_ndarray { ndshape : Z * Z; nddata : list A }.
Arguments mk_ndarray {A} ndshape nddata.
Arguments ndshape {A} _.
Arguments nddata {A} _.

Module numpy.

(** [img & v] *)
Definition and_scalar (img : ndarray Z) (v : Z) : ndarray Z :=
  mk_ndarray (ndshape img) (fmap (fun p => Z.land p v) (nddata img)).

(** [arr == v] *)
Definition eq_scalar (arr : ndarray Z) (v : Z) : ndarray bool :=
  mk_ndarray (ndshape arr) (fmap (fun p => Z.eqb p v) (nddata arr)).

(** [arr != v], where [v] may be [None]: no number equals [None], so the
    comparison is then true at every element. *)
Definition ne_scalar (arr : ndarray Z) (v : option Z) : ndarray bool :=
  mk_ndarray (ndshape arr)
    (fmap (fun p => match v with Some n => negb (Z.eqb p n) | None => true end)
         (nddata arr)).

(** [mask |= new_mask], for two arrays of one shape. *)
Definition ior (mask new_mask : ndarray bool) : ndarray bool :=
  mk_ndarray (ndshape mask) (zip_with orb (nddata mask) (nddata new_mask)).

(** [mask.astype("uint8")] *)
Definition astype_uint8 (mask : ndarray bool) : ndarray Z :=
  mk_ndarray (ndshape mask) (fmap (fun v : bool => if v then 1%Z else 0%Z) (nddata mask)).

End numpy.

(** ** affine and rasterio *)

Module Affine.
(** [affine.Affine]: the nine coefficients of the matrix, row by row.
    Python compares them as numbers; they are exact rationals here, equal
    exactly when they are equal as numbers. *)
Record t : Type := mk { a : Qc; b : Qc; c : Qc; d : Qc; e : Qc; f : Qc;
                        g : Qc; h : Qc; i : Qc }.
Definition xoff (T : t) : Qc := c T.
Definition yoff (T : t) : Qc := f T.

Global Instance eq_dec : EqDecision t.
Proof. solve_decision. Defined.
End Affine.

Module rasterio.

(** What the code reads from an open dataset: its transform, its shape
    (height, width), its nodata value ([None] when the file declares
    none) and the pixels of its bands. *)
Record DatasetReader : Type := mkDatasetReader {
  transform : Affine.t;
  shape : Z * Z;
  nodata : option Z;
  bands : list (list Z)
}.

(** [ds.indexes]: the band numbers, from 1. *)
Definition indexes (ds : DatasetReader) : list Z :=
  fmap Z.of_nat (seq 1 (length (bands ds))).

(** [ds.read(indx)] *)
Definition read (ds : DatasetReader) (indx : Z) : result (ndarray Z) :=
  if (indx <? 1)%Z then Raise (IndexError "band index out of range")
  else match bands ds !! Z.to_nat (indx - 1) with
       | Some data => Ok (mk_ndarray (shape ds) data)
       | None => Raise (IndexError "band index out of range")
       end.

(** The rasters that can be opened, by location. *)
Definition filesystem : Type := string -> option DatasetReader.

(** [rasterio.open(location, "r")] *)
Definition open (fs : filesystem) (location : string) : result DatasetReader :=
  match fs location with
  | Some ds => Ok ds
  | None => Raise (RasterioIOError location)
  end.

End rasterio.

(** ** shapely

    The geometry engine is outside the repository: a geometry is the tree of
    the calls that build it. *)

Module shapely.

(** [shapely.geometry.JOIN_STYLE] and [shapely.geometry.CAP_STYLE]. *)
Inductive JOIN_STYLE : Type := join_round | join_mitre | join_bevel.
Inductive CAP_STYLE : Type := cap_round | cap_flat | cap_square.

Definition join_style_value (s : JOIN_STYLE) : Z :=
  match s with join_round => 1 | join_mitre => 2 | join_bevel => 3 end.
Definition cap_style_value (s : CAP_STYLE) : Z :=
  match s with cap_round => 1 | cap_flat => 2 | cap_square => 3 end.

(** [rasterio.features.shapes(image, mask=mask)]: the (polygon, value)
    pairs traced from [image] where [mask] is true. *)
Inductive Shapes : Type :=
  | features_shapes (image : ndarray Z) (mask : ndarray bool).

Inductive Geometry : Type :=
  (** [unary_union] of the polygons whose value is 1 among the chained
      [sources] *)
  | unary_union_of_valid (sources : list Shapes)
  | convex_hull (geom : Geometry)
  | buffer (geom : Geometry) (distance : Z) (join_style cap_style : Z)
  | simplify (geom : Geometry) (tolerance : Z)
  | intersection (geom other : Geometry)
  | box (minx miny maxx maxy : Z)
  (** [affine_transform(geom, [a, b, d, e, xoff, yoff])] *)
  | affine_transform (geom : Geometry) (matrix : Qc * Qc * Qc * Qc * Qc * Qc).

(** What [affine_transform] does to a point, for a 6-element matrix. *)
Definition affine_transform_point
    (matrix : Qc * Qc * Qc * Qc * Qc * Qc) (pt : Qc * Qc) : Qc * Qc :=
  let '(ma, mb, md, me, mxoff, myoff) := matrix in
  let '(x, y) := pt in
  (ma * x + mb * y + mxoff, md * x + me * y + myoff)%Qc.

End shapely.

(** ** The documents of [model.py] *)

Module GridDoc.
Record t : Type := mk { shape : Z * Z; transform : Affine.t }.

Global Instance eq_dec : EqDecision t.
Proof. solve_decision. Defined.
End GridDoc.

Module MeasurementDoc.
(** [name] defaults to [None]. *)
Record t : Type := mk {
  path : string;
  band : option Z;
  layer : option string;
  grid : string;
  name : option string
}.

Definition set_grid (m : t) (value : string) : t :=
  mk (path m) (band m) (layer m) value (name m).
End MeasurementDoc.

(** Measurement documents are mutable objects that [valid_region] updates
    in place: a measurement is a reference into a store of documents, and
    the same reference may occur several times in a collection. *)
Definition ref : Type := nat.
Definition heap : Type := ref -> MeasurementDoc.t.

(** [m.grid = value] *)
Definition assign_grid (hp : heap) (m : ref) (value : string) : heap :=
  fun r => if decide (r = m) then MeasurementDoc.set_grid (hp r) value else hp r.

(** ** [valid_region] *)

(** The variables the [for] loop over the measurements leaves behind:
    [mask] and [transform] are those of the iteration that ran last. *)
Record loop_vars : Type := mk_loop_vars {
  measurements_by_grid : dict GridDoc.t (list ref);
  mask_by_grid : dict GridDoc.t (ndarray bool);
  mask : option (ndarray bool);
  transform : option Affine.t
}.

Definition loop_init : loop_vars := mk_loop_vars [] [] None None.

(** [repr] of a string that holds no quote. *)
Definition repr (s : string) : string := "'" +:+ s +:+ "'".

(** [measurements_by_grid[grid].append(measurement)] on a
    [defaultdict(list)]. *)
Definition defaultdict_append
    (dm : dict GridDoc.t (list ref)) (grid : GridDoc.t) (measurement : ref)
    : dict GridDoc.t (list ref) :=
  match dict_get dm grid with
  | Some members => dict_set dm grid (members ++ [measurement])
  | None => dict_set dm grid [measurement]
  end.

(** The mask of one raster, lines 355 to 358. *)
Definition new_mask_of (mask_value : option Z) (ds : rasterio.DatasetReader)
    (img : ndarray Z) : ndarray bool :=
  match mask_value with
  | Some mask_value => numpy.eq_scalar (numpy.and_scalar img mask_value) mask_value
  | None => numpy.ne_scalar img (rasterio.nodata ds)
  end.

Section ValidRegion.
Variable fs : rasterio.filesystem.
Variable cwd : string.
Variable path : pathlib.Path.
Variable mask_value : option Z.

(** One iteration of the loop. *)
Definition loop_body (hp : heap) (st : loop_vars) (measurement : ref)
    : result loop_vars :=
  let measurement_path :=
    resolve_absolute_offset cwd path (MeasurementDoc.path (hp measurement)) None in
  ds ← rasterio.open fs measurement_path;
  let transform := rasterio.transform ds in
  if negb (length (rasterio.indexes ds) =? 1)%nat then
    Raise (NotImplementedError
             ("Only single-band tifs currently supported. File " +:+ repr measurement_path))
  else
    img ← rasterio.read ds 1;
    let grid := GridDoc.mk (rasterio.shape ds) transform in
    let measurements_by_grid :=
      defaultdict_append (measurements_by_grid st) grid measurement in
    let new_mask := new_mask_of mask_value ds img in
    let mask :=
      match dict_get (mask_by_grid st) grid with
      | None => new_mask
      | Some mask => numpy.ior mask new_mask
      end in
    Ok (mk_loop_vars measurements_by_grid
                     (dict_set (mask_by_grid st) grid mask)
                     (Some mask) (Some transform)).

Fixpoint loop (hp : heap) (st : loop_vars) (measurements : list ref)
    : result loop_vars :=
  match measurements with
  | [] => Ok st
  | measurement :: rest =>
      st' ← loop_body hp st measurement;
      loop hp st' rest
  end.

(** ["_".join(m.name for m in measurements)]: [str.join] rejects an item
    that is not a string. *)
Definition join_names (hp : heap) (measurements : list ref) : result string :=
  match mapM (fun m => MeasurementDoc.name (hp m)) measurements with
  | Some names => Ok (Str.join "_" names)
  | None => Raise (TypeError "sequence item: expected str instance, NoneType found")
  end.

Definition name_grid (hp : heap) (grid : GridDoc.t) (measurements : list ref)
    (name : option string) : result (heap * (string * GridDoc.t)) :=
  name ← match name with
         | Some n => if decide (n = "") then join_names hp measurements else Ok n
         | None => join_names hp measurements
         end;
  let hp := fold_left (fun hp m => assign_grid hp m name) measurements hp in
  Ok (hp, (name, grid)).

(** The generator that applies [name_grid] to every group of [gs], left to
    right. *)
Fixpoint name_grids (hp : heap) (gs : list (GridDoc.t * list ref))
    : result (heap * list (string * GridDoc.t)) :=
  match gs with
  | [] => Ok (hp, [])
  | g :: gs' =>
      '(hp, named) ← name_grid hp (fst g) (snd g) None;
      '(hp, rest) ← name_grids hp gs';
      Ok (hp, named :: rest)
  end.

Definition valid_region (hp : heap) (measurements : list ref)
    : result (heap * (shapely.Geometry * dict string GridDoc.t)) :=
  if decide (measurements = []) then
    Raise (ValueError "No measurements: cannot calculate valid region")
  else
    st ← loop hp loop_init measurements;
    let grids_by_frequency :=
      sorted (fun k => length (snd k)) (dict_items (measurements_by_grid st)) in
    match last grids_by_frequency with
    | None => Raise (IndexError "list index out of range")
    | Some most_frequent =>
        '(hp, default) ← name_grid hp (fst most_frequent) (snd most_frequent)
                                      (Some "default");
        '(hp, others) ← name_grids hp (removelast grids_by_frequency);
        let grids := dict_of_pairs (default :: others) in
        let shape :=
          shapely.unary_union_of_valid
            (fmap (fun mask => shapely.features_shapes (numpy.astype_uint8 mask) mask)
                 (dict_values (mask_by_grid st))) in
        let geom := shapely.convex_hull shape in
        let geom := shapely.buffer geom 1 3 3 in
        let geom := shapely.simplify geom 1 in
        match mask st, transform st with
        | Some mask, Some transform =>
            let geom :=
              shapely.intersection geom
                (shapely.box 0 0 (snd (ndshape mask)) (fst (ndshape mask))) in
            let geom :=
              shapely.affine_transform geom
                (Affine.a transform, Affine.b transform,
                 Affine.d transform, Affine.e transform,
                 Affine.xoff transform, Affine.yoff transform) in
            Ok (hp, (geom, grids))
        | _, _ => Raise (AttributeError "'NoneType' object has no attribute 'shape'")
        end
    end.

End ValidRegion.

(** ** The vocabulary of the design document

    The notions the properties below are stated with, each written after
    the words of the design document. *)

(** A target path "lives inside" the dataset root: same anchor, and the
    root's components begin the target's. *)
Definition lives_inside (target root : pathlib.Path) : Prop :=
  pathlib._root target = pathlib._root root
  /\ pathlib._parts root `prefix_of` pathlib._parts target.

(** A ".tar-suffixed" path: the final suffix of its name is ".tar". *)
Definition tar_suffixed (p : pathlib.Path) : Prop :=
  last (pathlib.suffixes p) = Some ".tar".

(** "<dataset_root>/<offset>" as plain text. *)
Definition plain_join (root : pathlib.Path) (offset : string) : string :=
  pathlib.str root +:+ "/" +:+ offset.

(** The three rules of the path resolver, read literally. *)
Definition resolve_as_stated
    (cwd : string) (dataset_path : pathlib.Path) (offset : string)
    (target_path : option pathlib.Path) : string :=
  let dataset_root := pathlib.absolute cwd dataset_path in
  let inside :=
    match target_path with
    | Some target => bool_decide (lives_inside (pathlib.absolute cwd target) dataset_root)
    | None => false
    end in
  if inside then offset
  else if bool_decide (tar_suffixed dataset_root)
  then "tar:" +:+ pathlib.str dataset_root +:+ "!" +:+ offset
  else plain_join dataset_root offset.

(** A relative offset in normal form: one or more components joined by
    "/", none of them empty, "." or holding a "/". *)
Definition is_component (x : string) : Prop :=
  x <> "" /\ x <> "." /\ Str.split pathlib.sep x = [x].

Definition normal_relative (offset : string) (comps : list string) : Prop :=
  comps <> [] /\ Forall is_component comps /\ offset = Str.join "/" comps.

(** Pixel validity: the bitwise containment test when a mask value is
    given, otherwise "differs from the nodata sentinel". *)
Definition valid_pixel (mask_value nodata : option Z) (pixel_value : Z) : bool :=
  match mask_value with
  | Some mask_value => bool_decide (Z.land pixel_value mask_value = mask_value)
  | None => bool_decide (Some pixel_value <> nodata)
  end.

Definition validity_mask (mask_value : option Z) (ds : rasterio.DatasetReader)
    (pixels : list Z) : ndarray bool :=
  mk_ndarray (rasterio.shape ds)
             (valid_pixel mask_value (rasterio.nodata ds) <$> pixels).

(** A mask that is true at every pixel. *)
Definition fully_true (mask : ndarray bool) : Prop :=
  Forall (fun v => v = true) (nddata mask).

(** The logical OR of a list of masks, element by element. *)
Definition or_masks (masks : list (ndarray bool)) : option (ndarray bool) :=
  match masks with
  | [] => None
  | first :: others => Some (fold_left numpy.ior others first)
  end.

(** The Grid (shape and transform) of a raster. *)
Definition grid_of_raster (ds : rasterio.DatasetReader) : GridDoc.t :=
  GridDoc.mk (rasterio.shape ds) (rasterio.transform ds).

(** Hull, buffer by one pixel with the given styles, simplify by one
    pixel. *)
Definition refine (join_style : shapely.JOIN_STYLE) (cap_style : shapely.CAP_STYLE)
    (shape : shapely.Geometry) : shapely.Geometry :=
  shapely.simplify
    (shapely.buffer (shapely.convex_hull shape) 1
                    (shapely.join_style_value join_style)
                    (shapely.cap_style_value cap_style))
    1.

(** Clip to the pixel box of a raster, then map with its transform. *)
Definition clip_and_georeference (ds : rasterio.DatasetReader)
    (geom : shapely.Geometry) : shapely.Geometry :=
  let '(height, width) := rasterio.shape ds in
  let T := rasterio.transform ds in
  shapely.affine_transform
    (shapely.intersection geom (shapely.box 0 0 width height))
    (Affine.a T, Affine.b T, Affine.d T, Affine.e T, Affine.xoff T, Affine.yoff T).

(** The sort key of the groups: the number of member measurements. *)
Definition count_key : GridDoc.t * list ref -> nat := fun k => length (snd k).

Section Vocabulary.
Variable fs : rasterio.filesystem.
Variable cwd : string.
Variable path : pathlib.Path.
Variable mask_value : option Z.
Variable hp : heap.

(** Where a measurement's raster is opened, and what is found there. *)
Definition location (m : ref) : string :=
  resolve_absolute_offset cwd path (MeasurementDoc.path (hp m)) None.

Definition raster_of (m : ref) : option rasterio.DatasetReader :=
  fs (location m).

Definition grid_of (m : ref) : option GridDoc.t :=
  grid_of_raster <$> raster_of m.

(** The measurements of a collection that lie on a grid, in supplied
    order. *)
Definition members_of (measurements : list ref) (grid : GridDoc.t) : list ref :=
  filter (fun m => grid_of m = Some grid) measurements.

(** The validity mask of a measurement whose raster has one band. *)
Definition mask_of (m : ref) : option (ndarray bool) :=
  match raster_of m with
  | Some ds =>
      match rasterio.bands ds with
      | [pixels] => Some (validity_mask mask_value ds pixels)
      | _ => None
      end
  | None => None
  end.

(** The names of some measurements joined with "_". *)
Definition joined_name (members : list ref) : string :=
  Str.join "_" (omap (fun m => MeasurementDoc.name (hp m)) members).

(** A grid that has strictly more member measurements than any other. *)
Definition most_members (measurements : list ref) (grid : GridDoc.t) : Prop :=
  forall other, other <> grid ->
    length (members_of measurements other) < length (members_of measurements grid).

(** What holds of the loop's variables once the measurements [seen] have
    been read: the groups, the accumulated masks, and the mask and
    transform left by the last iteration. *)
Record loop_invariant (seen : list ref) (st : loop_vars) : Prop := {
  inv_keys : NoDup (dict_keys (measurements_by_grid st));
  inv_groups : forall grid,
    dict_get (measurements_by_grid st) grid
    = match members_of seen grid with [] => None | members => Some members end;
  inv_masks : forall grid,
    dict_get (mask_by_grid st) grid = or_masks (omap mask_of (members_of seen grid));
  inv_mask :
    mask st = (last seen ≫= fun m => grid_of m ≫= dict_get (mask_by_grid st));
  inv_transform :
    transform st = (last seen ≫= fun m => rasterio.transform <$> raster_of m);
  inv_seen : forall m, m ∈ seen ->
    exists ds pixels, raster_of m = Some ds /\ rasterio.bands ds = [pixels]
}.

End Vocabulary.

(** ** A small scene used in the examples below

    Two bands on a 2x2 grid of 10-unit pixels, one band on a 1x2 grid of
    20-unit pixels with no nodata value, a three-band file and a 1x4
    bit-flag band, all below [/data/scene]. *)

Module Scene.

Definition num (z : Z) : Qc := Q2Qc (inject_Z z).

Definition T10 : Affine.t :=
  Affine.mk (num 10) (num 0) (num 500) (num 0) (num (-10)) (num 900)
            (num 0) (num 0) (num 1).
Definition T20 : Affine.t :=
  Affine.mk (num 20) (num 0) (num 500) (num 0) (num (-20)) (num 900)
            (num 0) (num 0) (num 1).

Definition red : rasterio.DatasetReader :=
  rasterio.mkDatasetReader T10 (2, 2)%Z (Some 0%Z) [[1; 2; 3; 4]%Z].
Definition nir : rasterio.DatasetReader :=
  rasterio.mkDatasetReader T10 (2, 2)%Z (Some 0%Z) [[0; 0; 5; 6]%Z].
Definition pan : rasterio.DatasetReader :=
  rasterio.mkDatasetReader T20 (1, 2)%Z None [[7; 0]%Z].
Definition rgb : rasterio.DatasetReader :=
  rasterio.mkDatasetReader T10 (2, 2)%Z (Some 0%Z)
    [[1; 1; 1; 1]%Z; [2; 2; 2; 2]%Z; [3; 3; 3; 3]%Z].
Definition flags : rasterio.DatasetReader :=
  rasterio.mkDatasetReader T10 (1, 4)%Z None [[0; 1; 2; 3]%Z].

Definition fs : rasterio.filesystem := fun location =>
  if decide (location = "/data/scene/red.tif") then Some red
  else if decide (location = "/data/scene/nir.tif") then Some nir
  else if decide (location = "/data/scene/pan.tif") then Some pan
  else if decide (location = "/data/scene/rgb.tif") then Some rgb
  else if decide (location = "/data/scene/flags.tif") then Some flags
  else None.

Definition cwd : string := "/home/user".
Definition root : pathlib.Path := pathlib.of_string "/data/scene".

Definition doc (file band_name : string) : MeasurementDoc.t :=
  MeasurementDoc.mk file (Some 1%Z) None "default" (Some band_name).

(** References 0 to 5 hold the documents of red, nir, pan, rgb, flags and
    of a file that does not exist. *)
Definition hp : heap := fun r =>
  match r with
  | 0 => doc "red.tif" "red"
  | 1 => doc "nir.tif" "nir"
  | 2 => doc "pan.tif" "pan"
  | 3 => doc "rgb.tif" "rgb"
  | 4 => doc "flags.tif" "flags"
  | _ => doc "lost.tif" "lost"
  end%nat.

End Scene.


(** What a call leaves behind that the examples look at: the grid fields
    of some measurements and the names of the returned mapping. *)
Definition outcome
    (r : result (heap * (shapely.Geometry * dict string GridDoc.t)))
    (measurements : list ref) : option (list string * list string) :=
  match r with
  | Ok (hp', (_, grids)) =>
      Some ((fun m => MeasurementDoc.grid (hp' m)) <$> measurements, dict_keys grids)
  | Raise _ => None
  end.

(** * The rest of the package

    The other functions of [model.py], and the pure helpers of
    [packagewagl.py] and [landsat_l2_prepare.py]. *)

(** ** Values and errors *)

(** The values a metadata document holds: scalars and nested dicts.  A
    document is a tree: no dict object occurs in it twice. *)
#[warnings="-register-all"]
Inductive value : Type :=
  | VNone
  | VInt (z : Z)
  | VStr (s : string)
  | VDict (items : list (string * value)).

(** [isinstance(val, dict)] *)
Definition is_dict (val : value) : bool :=
  match val with VDict _ => true | _ => false end.


(** [type(val).__name__] *)
Definition type_name (val : value) : string :=
  match val with
  | VNone => "NoneType"
  | VInt _ => "int"
  | VStr _ => "str"
  | VDict _ => "dict"
  end.


(** The message of the [AttributeError] for a missing method. *)
Definition no_attribute (val : value) (attribute : string) : exception :=
  AttributeError ("'" +:+ type_name val +:+ "' object has no attribute "
                  +:+ repr attribute).

(** The exceptions of the code below: those above, [KeyError], and the
    [RecursionError] of a call stack that is used up. *)
Inductive error : Type :=
  | Builtin (exc : exception)
  | KeyError (key : string)
  | RecursionError.

Inductive computation (A : Type) : Type :=
  | Returns (result : A)
  | Raises (err : error).
Arguments Returns {A} result.
Arguments Raises {A} err.

Global Instance computation_ret : MRet computation := fun A v => Returns v.
Global Instance computation_bind : MBind computation := fun A B k r =>
  match r with
  | Returns v => k v
  | Raises err => Raises err
  end.

(** ** More string methods *)

Module PyStr.

(** [s[n:]] *)
Fixpoint drop (n : nat) (s : string) : string :=
  match n, s with
  | 0, _ => s
  | S n', String _ rest => drop n' rest
  | S _, EmptyString => EmptyString
  end.

(** [s[:n]] *)
Fixpoint take (n : nat) (s : string) : string :=
  match n, s with
  | 0, _ => EmptyString
  | S n', String ch rest => String ch (take n' rest)
  | S _, EmptyString => EmptyString
  end.

(** [s.rfind(ch)], with [None] for -1. *)
Fixpoint rfind (ch : ascii) (s : string) : option nat :=
  match s with
  | EmptyString => None
  | String ch' rest =>
      match rfind ch rest with
      | Some i => Some (S i)
      | None => if Ascii.eqb ch' ch then Some 0 else None
      end
  end.

(** The text before and after the first occurrence of [sep] in [s]. *)
Fixpoint partition (sep s : string) : option (string * string) :=
  if String.prefix sep s then Some (EmptyString, drop (String.length sep) s)
  else match s with
       | EmptyString => None
       | String ch rest =>
           match partition sep rest with
           | Some (before, after) => Some (String ch before, after)
           | None => None
           end
       end.


(** [s[-1]], for a string that is not empty. *)
Fixpoint last_char (s : string) : string :=
  match s with
  | EmptyString => EmptyString
  | String ch EmptyString => s
  | String _ rest => last_char rest
  end.

End PyStr.

(** ** [nest_properties] *)

(** [section, *remainder = key.split(separator, 1)] *)
Definition split_section (separator key : string)
    : computation (string * option string) :=
  if decide (separator = "") then Raises (Builtin (ValueError "empty separator"))
  else match PyStr.partition separator key with
       | Some (section, sub_key) => Returns (section, Some sub_key)
       | None => Returns (key, None)
       end.

(** The body of the first loop, on the [defaultdict(dict)] [out]. *)
Definition nest_item (separator : string) (out : dict string value)
    (item : string * value) : computation (dict string value) :=
  let '(key, val) := item in
  '(section, remainder) ← split_section separator key;
  match remainder with
  | Some sub_key =>
      match dict_get out section with
      | None => Returns (dict_set out section (VDict [(sub_key, val)]))
      | Some (VDict items) =>
          Returns (dict_set out section (VDict (dict_set items sub_key val)))
      | Some other =>
          Raises (Builtin (TypeError ("'" +:+ type_name other
                                      +:+ "' object does not support item assignment")))
      end
  | None => Returns (dict_set out section val)
  end.

Fixpoint nest_items (separator : string) (out : dict string value)
    (items : list (string * value)) : computation (dict string value) :=
  match items with
  | [] => Returns out
  | item :: rest =>
      out' ← nest_item separator out item;
      nest_items separator out' rest
  end.

(** The second loop: every value that is a dict is replaced by what the
    recursive call [nested] makes of it. *)
Fixpoint nest_values
    (nested : dict string value -> computation (dict string value))
    (out : list (string * value)) : computation (dict string value) :=
  match out with
  | [] => Returns []
  | (key, val) :: rest =>
      val' ← match val with
             | VDict items => items' ← nested items; Returns (VDict items')
             | _ => Returns val
             end;
      rest' ← nest_values nested rest;
      Returns ((key, val') :: rest')
  end.

(** [nest_properties(d, separator)], with [limit] nested calls left on the
    interpreter's stack. *)
Fixpoint nest_properties (limit : nat) (separator : string)
    (d : dict string value) : computation (dict string value) :=
  match limit with
  | 0 => Raises RecursionError
  | S limit' =>
      out ← nest_items separator [] (dict_items d);
      nest_values (nest_properties limit' separator) (dict_items out)
  end.

(** *** What is said of documents *)

(** A Python dict: its keys are distinct, at every depth. *)
#[warnings="-register-all"]
Inductive well_formed : value -> Prop :=
  | wf_none : well_formed VNone
  | wf_int z : well_formed (VInt z)
  | wf_str s : well_formed (VStr s)
  | wf_dict items :
      NoDup (fst <$> items) ->
      Forall (fun item => well_formed (snd item)) items ->
      well_formed (VDict items).

(** No key holds the separator, at any depth. *)
#[warnings="-register-all"]
Inductive separator_free (separator : string) : value -> Prop :=
  | sf_none : separator_free separator VNone
  | sf_int z : separator_free separator (VInt z)
  | sf_str s : separator_free separator (VStr s)
  | sf_dict items :
      Forall (fun item => PyStr.partition separator (fst item) = None
                          /\ separator_free separator (snd item)) items ->
      separator_free separator (VDict items).

(** Dicts are nested at most [n] deep. *)
#[warnings="-register-all"]
Inductive nested_within : nat -> value -> Prop :=
  | nw_none n : nested_within n VNone
  | nw_int n z : nested_within n (VInt z)
  | nw_str n s : nested_within n (VStr s)
  | nw_dict n items :
      Forall (fun item => nested_within n (snd item)) items ->
      nested_within (S n) (VDict items).

(** The sections of a key, split at every separator. *)
Inductive path_of (separator : string) : string -> list string -> Prop :=
  | path_last key :
      PyStr.partition separator key = None -> path_of separator key [key]
  | path_section key section sub_key path :
      PyStr.partition separator key = Some (section, sub_key) ->
      path_of separator sub_key path ->
      path_of separator key (section :: path).

(** The value found by following a path of keys through nested dicts. *)
Fixpoint get_path (d : dict string value) (path : list string) : option value :=
  match path with
  | [] => None
  | [key] => dict_get d key
  | key :: rest =>
      match dict_get d key with
      | Some (VDict items) => get_path items rest
      | _ => None
      end
  end.

(** A flat document: no value is a dict. *)
Definition flat (d : dict string value) : Prop :=
  Forall (fun item => is_dict (snd item) = false) d.

(** No key's path begins another key's path. *)
Definition prefix_free (separator : string) (d : dict string value) : Prop :=
  forall key1 key2 path1 path2,
    key1 ∈ dict_keys d -> key2 ∈ dict_keys d ->
    path_of separator key1 path1 -> path_of separator key2 path2 ->
    path1 `prefix_of` path2 -> key1 = key2.

(** No key has more than [n] sections. *)
Definition sections_within (separator : string) (n : nat)
    (d : dict string value) : Prop :=
  forall key path, key ∈ dict_keys d -> path_of separator key path -> length path <= n.

(** ** [StacPropertyView]

    The view wraps the dict [_props]; a method that changes it returns the
    new dict and the warnings it issued. *)

Module StacPropertyView.

(** [self._props[item]] *)
Definition getitem (_props : dict string value) (item : string) : computation value :=
  match dict_get _props item with
  | Some val => Returns val
  | None => Raises (KeyError item)
  end.

(** [self._props.get(item)] *)
Definition get (_props : dict string value) (item : string) : value :=
  match dict_get _props item with
  | Some val => val
  | None => VNone
  end.

(** [self[key] = value] *)
Definition setitem (_props : dict string value) (key : string) (val : value)
    : dict string value * list string :=
  (dict_set _props key val,
   if decide (key ∈ dict_keys _props)
   then ["overridding property " +:+ repr key]
   else []).

(** [len(self)] *)
Definition len (_props : dict string value) : nat := length _props.

Definition platform (_props : dict string value) : computation value :=
  getitem _props "eo:platform".

Definition instrument (_props : dict string value) : computation value :=
  getitem _props "eo:instrument".

Definition platform_abbreviated (_props : dict string value) : computation string :=
  p ← platform _props;
  match p with
  | VStr p =>
      if negb (Str.startswith p "landsat") then
        Raises (Builtin (NotImplementedError
                  ("TODO: implement non-landsat platform abbreviation (got "
                   +:+ repr p +:+ ")")))
      else Returns ("ls" +:+ PyStr.last_char p)
  | other => Raises (Builtin (no_attribute other "startswith"))
  end.





Definition datetime_range (_props : dict string value) : value * value :=
  (get _props "dtr:start_datetime", get _props "dtr:end_datetime").

(** [self.datetime_range = val] *)
Definition set_datetime_range (_props : dict string value) (val : value * value)
    : dict string value * list string :=
  let '(start, end_) := val in
  (dict_set (dict_set _props "dtr:start_datetime" start) "dtr:end_datetime" end_, []).

Definition datetime (_props : dict string value) : value :=
  get _props "datetime".

(** [self.nested()], with the default separator. *)
Definition nested (limit : nat) (_props : dict string value)
    : computation (dict string value) :=
  nest_properties limit ":" _props.

End StacPropertyView.

(** ** [packagewagl.py] and [landsat_l2_prepare.py] *)

(** [p.stem] *)
Definition stem (p : pathlib.Path) : string :=
  let name := pathlib.name p in
  match PyStr.rfind "."%char name with
  | Some i =>
      if (0 <? i)%nat && (i <? String.length name - 1)%nat
      then PyStr.take i name
      else name
  | None => name
  end.

Definition _find_a_granule_name (wagl_hdf5 : pathlib.Path) : computation string :=
  let granule_name :=
    match Str.split "."%char (stem wagl_hdf5) with
    | first :: _ => first
    | [] => EmptyString
    end in
  if negb (Str.startswith granule_name "L") then
    Raises (Builtin (ValueError
              ("No granule specified, and cannot find it on input filename "
               +:+ repr (stem wagl_hdf5) +:+ ".")))
  else Returns granule_name.

(** The generator [_iter_bands_paths]: the pairs it yields, and the
    exception that ends it early, if any. *)
Fixpoint iter_product_contents (items : list (string * value))
    : list (string * string) * option error :=
  let prefix := "file_name_" in
  let suffix := "TIF" in
  match items with
  | [] => ([], None)
  | (name, filepath) :: rest =>
      if negb (Str.startswith name prefix) then iter_product_contents rest
      else match filepath with
           | VStr filepath =>
               if negb (Str.endswith filepath suffix) then iter_product_contents rest
               else
                 let usgs_band_id := PyStr.drop (String.length prefix) name in
                 let '(yielded, exc) := iter_product_contents rest in
                 ((usgs_band_id, filepath) :: yielded, exc)
           | other => ([], Some (Builtin (no_attribute other "endswith")))
           end
  end.

Definition _iter_bands_paths (mtl_doc : dict string value)
    : list (string * string) * option error :=
  match dict_get mtl_doc "product_contents" with
  | Some (VDict items) => iter_product_contents (dict_items items)
  | Some other => ([], Some (Builtin (no_attribute other "items")))
  | None => ([], Some (KeyError "product_contents"))
  end.

(** The band files of a product-contents section: the entries named
    "file_name_<band>" whose value is a text ending in "TIF". *)
Definition band_files (items : list (string * value)) : list (string * string) :=
  omap (fun item =>
          match snd item with
          | VStr filepath =>
              if Str.startswith (fst item) "file_name_" && Str.endswith filepath "TIF"
              then Some (PyStr.drop 10 (fst item), filepath)
              else None
          | _ => None
          end) items.

(** ** Documents used in the examples *)

Module Docs.

Definition stac : dict string value :=
  [("eo:platform", VStr "landsat-8"); ("eo:instrument", VStr "OLI_TIRS");
   ("landsat:wrs_path", VInt 91); ("landsat:wrs_row", VInt 84);
   ("odc:producer", VStr "usgs.gov")].

Definition nested_stac : dict string value :=
  [("eo", VDict [("platform", VStr "landsat-8"); ("instrument", VStr "OLI_TIRS")]);
   ("landsat", VDict [("wrs_path", VInt 91); ("wrs_row", VInt 84)]);
   ("odc", VDict [("producer", VStr "usgs.gov")])].

Definition mtl : dict string value :=
  [("product_contents",
    VDict [("landsat_product_id", VStr "LC08_L2SP_091084_20200101_20200823_02_T1");
           ("file_name_band_1", VStr "LC08_SR_B1.TIF");
           ("file_name_quality_l1_pixel", VStr "LC08_QA_PIXEL.TIF");
           ("file_name_metadata_odl", VStr "LC08_MTL.txt");
           ("collection_number", VInt 2)])].

End Docs.

(** * Properties *)

(** ** The result monad *)

Lemma bind_Ok_inv {A B : Type} (r : result A) (k : A -> result B) (v : B) :
  (r ≫= k) = Ok v -> exists a, r = Ok a /\ k a = Ok v.
Proof. destruct r as [a|exc]; simpl; [eauto | discriminate]. Qed.


Ltac inv_bind H :=
  let a := fresh "a" in
  let Ha := fresh "Ha" in
  apply bind_Ok_inv in H; destruct H as (a & Ha & H).

(** ** Ordered dictionaries *)

Section PyDictFacts.
Context {K V : Type} `{EqDecision K}.
Implicit Types (dm : dict K V) (k : K) (v : V).

Lemma dict_get_set_eq dm k v : dict_get (dict_set dm k v) k = Some v.
Proof.
  induction dm as [|[k' v'] dm IH]; simpl.
  - by rewrite decide_True.
  - destruct (decide (k' = k)) as [->|Hne]; simpl.
    + by rewrite decide_True.
    + by rewrite decide_False.
Qed.

Lemma dict_get_set_ne dm k k' v :
  k <> k' -> dict_get (dict_set dm k v) k' = dict_get dm k'.
Proof.
  intros Hne. induction dm as [|[k0 v0] dm IH]; simpl.
  - by rewrite decide_False.
  - destruct (decide (k0 = k)) as [->|Hne0]; simpl.
    + by rewrite !decide_False.
    + by rewrite IH.
Qed.

Lemma dict_get_Some_elem dm k v : dict_get dm k = Some v -> (k, v) ∈ dm.
Proof.
  induction dm as [|[k0 v0] dm IH]; simpl; [discriminate|].
  destruct (decide (k0 = k)) as [->|Hne].
  - intros [= ->]. left.
  - intros Hget. right. auto.
Qed.

Lemma dict_get_None_keys dm k : dict_get dm k = None <-> k ∉ dict_keys dm.
Proof.
  unfold dict_keys. induction dm as [|[k0 v0] dm IH]; simpl.
  - split; [intros _; apply not_elem_of_nil | done].
  - rewrite not_elem_of_cons. destruct (decide (k0 = k)) as [->|Hne].
    + split; [discriminate | intros [Hk _]; by destruct Hk].
    + rewrite IH. split; [intros ?; split; [intros ->; by apply Hne | done] | tauto].
Qed.

Lemma dict_get_is_Some_keys dm k : is_Some (dict_get dm k) <-> k ∈ dict_keys dm.
Proof.
  destruct (dict_get dm k) as [v|] eqn:Hget.
  - split; [intros _ | eauto].
    apply dict_get_Some_elem in Hget.
    unfold dict_keys. apply list_elem_of_fmap. by exists (k, v).
  - split; [intros [? [=]] |].
    intros Hin. by apply dict_get_None_keys in Hget.
Qed.

Lemma elem_dict_get dm k v :
  NoDup (dict_keys dm) -> (k, v) ∈ dm -> dict_get dm k = Some v.
Proof.
  unfold dict_keys. induction dm as [|[k0 v0] dm IH]; simpl.
  - intros _ Hin. by apply elem_of_nil in Hin.
  - rewrite NoDup_cons. intros [Hnotin Hnd] Hin.
    apply elem_of_cons in Hin as [[= -> ->]|Hin].
    + by rewrite decide_True.
    + rewrite decide_False; [by apply IH|].
      intros ->. apply Hnotin. apply list_elem_of_fmap. by exists (k, v).
Qed.

Lemma dict_keys_set dm k v :
  dict_keys (dict_set dm k v)
  = if decide (k ∈ dict_keys dm) then dict_keys dm else dict_keys dm ++ [k].
Proof.
  unfold dict_keys. induction dm as [|[k0 v0] dm IH].
  - cbn [dict_set]. rewrite fmap_nil.
    destruct (decide (k ∈ [])) as [Hin|]; [by apply elem_of_nil in Hin | done].
  - cbn [dict_set]. destruct (decide (k0 = k)) as [->|Hne]; rewrite !fmap_cons; cbn [fst].
    + destruct (decide (k ∈ k :: (fst <$> dm))) as [|Hn]; [done|].
      exfalso. apply Hn. left.
    + rewrite IH.
      destruct (decide (k ∈ fst <$> dm)) as [Hin|Hnotin],
               (decide (k ∈ k0 :: (fst <$> dm))) as [Hin'|Hnotin']; try done.
      * exfalso. apply Hnotin'. by right.
      * apply elem_of_cons in Hin' as [?|?]; congruence.
Qed.

Lemma dict_keys_set_NoDup dm k v :
  NoDup (dict_keys dm) -> NoDup (dict_keys (dict_set dm k v)).
Proof.
  intros Hnd. rewrite dict_keys_set. case_decide; [done|].
  apply NoDup_app. split_and!; [done | | apply NoDup_singleton].
  intros x Hx Hx'. apply list_elem_of_singleton in Hx'. congruence.
Qed.

Lemma elem_of_dict_keys_set dm k v k' :
  k' ∈ dict_keys (dict_set dm k v) <-> k' = k \/ k' ∈ dict_keys dm.
Proof.
  rewrite dict_keys_set. case_decide as Hin.
  - split; [auto | intros [->|?]; done].
  - rewrite elem_of_app, list_elem_of_singleton. tauto.
Qed.

Lemma elem_of_dict_keys_fold (pairs : list (K * V)) dm k :
  k ∈ dict_keys (fold_left (fun dm kv => dict_set dm (fst kv) (snd kv)) pairs dm)
  <-> k ∈ dict_keys dm \/ k ∈ fmap fst pairs.
Proof.
  revert dm. induction pairs as [|[k0 v0] pairs IH]; intros dm; simpl.
  - rewrite elem_of_nil. tauto.
  - rewrite IH, elem_of_dict_keys_set, elem_of_cons. tauto.
Qed.

(** The keys of [dict(pairs)] are the first components of [pairs]. *)
Lemma elem_of_dict_of_pairs_keys (pairs : list (K * V)) k :
  k ∈ dict_keys (dict_of_pairs pairs) <-> k ∈ fmap fst pairs.
Proof.
  unfold dict_of_pairs. rewrite elem_of_dict_keys_fold.
  unfold dict_keys at 1. simpl. rewrite elem_of_nil. tauto.
Qed.

End PyDictFacts.

(** ** [sorted] *)

Section SortedFacts.
Context {A : Type} (key : A -> nat).

Lemma insert_by_key_Permutation x l : insert_by_key key x l ≡ₚ x :: l.
Proof.
  induction l as [|y l IH]; simpl; [done|].
  case_match; [done|]. rewrite IH. apply Permutation_swap.
Qed.

Lemma sorted_Permutation l : sorted key l ≡ₚ l.
Proof.
  induction l as [|x l IH]; simpl; [done|].
  by rewrite insert_by_key_Permutation, IH.
Qed.

Lemma insert_by_key_ascending x l :
  ascending key l -> ascending key (insert_by_key key x l).
Proof.
  unfold ascending. induction 1 as [|y l Hl IH Hy]; simpl.
  - repeat constructor.
  - destruct (key x <=? key y)%nat eqn:Hle.
    + apply Nat.leb_le in Hle. constructor; [by constructor|].
      constructor; [done|].
      eapply Forall_impl; [exact Hy|]. simpl. intros; lia.
    + apply Nat.leb_gt in Hle. constructor; [done|].
      rewrite insert_by_key_Permutation. constructor; [lia | done].
Qed.

Lemma sorted_ascending l : ascending key (sorted key l).
Proof.
  induction l as [|x l IH]; simpl; [constructor|].
  by apply insert_by_key_ascending.
Qed.

Lemma ascending_app_last front x :
  ascending key (front ++ [x]) -> forall y, y ∈ front -> key y <= key x.
Proof.
  unfold ascending. induction front as [|z front IH]; simpl; intros Hs y Hy.
  - by apply elem_of_nil in Hy.
  - apply StronglySorted_inv in Hs as [Hs Hz].
    apply elem_of_cons in Hy as [->|Hy]; [|by apply IH].
    rewrite Forall_app, Forall_singleton in Hz. tauto.
Qed.

(** Every list that is not empty sorts into a front part and a last
    element whose key is the largest. *)
Lemma sorted_last_greatest l x :
  last (sorted key l) = Some x ->
  sorted key l = removelast (sorted key l) ++ [x]
  /\ x ∈ l
  /\ forall y, y ∈ l -> key y <= key x.
Proof.
  intros Hlast.
  assert (Hsplit : sorted key l = removelast (sorted key l) ++ [x]).
  { destruct (sorted key l) as [|z s] eqn:Hs; [discriminate|].
    rewrite <- Hs in *. rewrite (app_removelast_last x) at 1.
    - f_equal. f_equal. rewrite Hs in Hlast |- *.
      clear Hs. revert z Hlast. induction s as [|w s IH]; intros z Hlast.
      + by injection Hlast.
      + apply (IH w). exact Hlast.
    - rewrite Hs. discriminate. }
  split; [done|].
  assert (Hx : x ∈ l).
  { rewrite <- (sorted_Permutation l), Hsplit, elem_of_app, list_elem_of_singleton. auto. }
  split; [done|].
  intros y Hy. rewrite <- (sorted_Permutation l), Hsplit in Hy.
  apply elem_of_app in Hy as [Hy|Hy].
  - eapply ascending_app_last; [|exact Hy].
    rewrite <- Hsplit. apply sorted_ascending.
  - apply list_elem_of_singleton in Hy as ->. lia.
Qed.

End SortedFacts.

(** ** The loop over the measurements *)

Lemma read_single_band ds :
  length (rasterio.indexes ds) = 1 <-> exists pixels, rasterio.bands ds = [pixels].
Proof.
  unfold rasterio.indexes. rewrite length_fmap, length_seq.
  destruct (rasterio.bands ds) as [|pixels [|? ?]]; simpl;
    split; try discriminate; try (intros [? [=]]); eauto.
Qed.

Lemma new_mask_of_validity mask_value ds pixels :
  new_mask_of mask_value ds (mk_ndarray (rasterio.shape ds) pixels)
  = validity_mask mask_value ds pixels.
Proof.
  unfold new_mask_of, validity_mask, valid_pixel.
  destruct mask_value as [mv|]; simpl.
  - unfold numpy.eq_scalar, numpy.and_scalar; simpl. f_equal.
    rewrite <- list_fmap_compose. apply list_fmap_ext. intros _ p _. simpl.
    destruct (Z.eqb_spec (Z.land p mv) mv).
    + by rewrite bool_decide_eq_true_2.
    + by rewrite bool_decide_eq_false_2.
  - unfold numpy.ne_scalar; simpl. f_equal.
    apply list_fmap_ext. intros _ p _.
    destruct (rasterio.nodata ds) as [n|].
    + destruct (Z.eqb_spec p n) as [->|Hne]; simpl.
      * rewrite bool_decide_eq_false_2; [done | by intros []].
      * rewrite bool_decide_eq_true_2; [done | congruence].
    + by rewrite bool_decide_eq_true_2.
Qed.

Section LoopFacts.
Variable fs : rasterio.filesystem.
Variable cwd : string.
Variable path : pathlib.Path.
Variable mask_value : option Z.
Variable hp : heap.


(** An iteration succeeds exactly on a raster that opens with one band,
    and then updates the variables as follows. *)
Lemma loop_body_Ok st m st' :
  (loop_body fs cwd path mask_value hp) st m = Ok st' <->
  exists ds pixels,
    (raster_of fs cwd path hp) m = Some ds /\ rasterio.bands ds = [pixels] /\
    let grid := grid_of_raster ds in
    let new_mask := validity_mask mask_value ds pixels in
    let acc := match dict_get (mask_by_grid st) grid with
               | None => new_mask
               | Some old => numpy.ior old new_mask
               end in
    st' = mk_loop_vars (defaultdict_append (measurements_by_grid st) grid m)
                       (dict_set (mask_by_grid st) grid acc)
                       (Some acc) (Some (rasterio.transform ds)).
Proof.
  unfold loop_body, raster_of, location, rasterio.open.
  destruct (fs _) as [ds|] eqn:Hfs; simpl.
  2: { split; [discriminate | intros (? & ? & [=] & _)]. }
  destruct (length (rasterio.indexes ds) =? 1)%nat eqn:Hlen; simpl.
  - apply Nat.eqb_eq, read_single_band in Hlen as [pixels Hb].
    unfold rasterio.read. simpl. rewrite Hb. simpl.
    rewrite new_mask_of_validity. fold (grid_of_raster ds).
    split.
    + intros [= <-]. by exists ds, pixels.
    + intros (ds' & pixels' & [= <-] & Hb' & ->).
      rewrite Hb in Hb'. by injection Hb' as <-.
  - apply Nat.eqb_neq in Hlen. split; [discriminate|].
    intros (ds' & pixels' & [= <-] & Hb' & _).
    exfalso. apply Hlen, read_single_band. eauto.
Qed.

Lemma members_of_snoc seen m grid :
  (members_of fs cwd path hp) (seen ++ [m]) grid
  = (members_of fs cwd path hp) seen grid ++ (if decide ((grid_of fs cwd path hp) m = Some grid) then [m] else []).
Proof.
  unfold members_of. rewrite filter_app. reflexivity.
Qed.

Lemma or_masks_snoc masks new_mask :
  or_masks (masks ++ [new_mask])
  = Some match or_masks masks with
         | None => new_mask
         | Some old => numpy.ior old new_mask
         end.
Proof.
  destruct masks as [|first others]; simpl; [done|].
  by rewrite fold_left_app.
Qed.

Lemma loop_invariant_init : (loop_invariant fs cwd path mask_value hp) [] loop_init.
Proof. split; simpl; try done; [constructor | intros m Hm; by apply elem_of_nil in Hm]. Qed.

Lemma loop_invariant_step seen st m st' :
  (loop_invariant fs cwd path mask_value hp) seen st -> (loop_body fs cwd path mask_value hp) st m = Ok st' ->
  (loop_invariant fs cwd path mask_value hp) (seen ++ [m]) st'.
Proof.
  intros [Hkeys Hgroups Hmasks Hmask Htransform Hseen] Hbody.
  apply loop_body_Ok in Hbody as (ds & pixels & Hds & Hb & ->).
  assert (Hgrid : (grid_of fs cwd path hp) m = Some (grid_of_raster ds)).
  { unfold grid_of. by rewrite Hds. }
  assert (Hmk : (mask_of fs cwd path mask_value hp) m = Some (validity_mask mask_value ds pixels)).
  { unfold mask_of. by rewrite Hds, Hb. }
  split; simpl.
  - unfold defaultdict_append. destruct (dict_get _ _); by apply dict_keys_set_NoDup.
  - intros grid. rewrite members_of_snoc.
    unfold defaultdict_append. rewrite (Hgroups (grid_of_raster ds)).
    destruct (decide (grid_of_raster ds = grid)) as [<-|Hne].
    + rewrite decide_True by done.
      destruct ((members_of fs cwd path hp) seen (grid_of_raster ds)) as [|m0 l];
        by rewrite dict_get_set_eq.
    + rewrite decide_False by congruence. rewrite app_nil_r.
      destruct ((members_of fs cwd path hp) seen (grid_of_raster ds)) as [|m0 l];
        by rewrite dict_get_set_ne, Hgroups.
  - intros grid. rewrite members_of_snoc.
    destruct (decide (grid_of_raster ds = grid)) as [<-|Hne].
    + rewrite decide_True by done. rewrite dict_get_set_eq.
      rewrite omap_app. simpl. rewrite Hmk. simpl.
      by rewrite or_masks_snoc, <- Hmasks.
    + rewrite decide_False by congruence. rewrite app_nil_r.
      by rewrite dict_get_set_ne, Hmasks.
  - rewrite last_snoc. simpl. rewrite Hgrid. simpl. by rewrite dict_get_set_eq.
  - rewrite last_snoc. simpl. by rewrite Hds.
  - intros m' Hm'. apply elem_of_app in Hm' as [Hm'|Hm']; [by apply Hseen|].
    apply list_elem_of_singleton in Hm' as ->. eauto.
Qed.

Lemma loop_invariant_loop measurements : forall seen st st',
  (loop_invariant fs cwd path mask_value hp) seen st -> (loop fs cwd path mask_value hp) st measurements = Ok st' ->
  (loop_invariant fs cwd path mask_value hp) (seen ++ measurements) st'.
Proof.
  induction measurements as [|m rest IH]; intros seen st st' Hinv Hloop; simpl in Hloop.
  - injection Hloop as <-. by rewrite app_nil_r.
  - inv_bind Hloop.
    replace (seen ++ m :: rest) with ((seen ++ [m]) ++ rest)
      by (by rewrite <- app_assoc).
    eapply IH; [|exact Hloop]. by eapply loop_invariant_step.
Qed.


End LoopFacts.

(** ** Naming the grids *)

Lemma omap_Forall2_Some {A B : Type} (f : A -> option B) l k :
  Forall2 (fun x y => f x = Some y) l k -> omap f l = k.
Proof.
  induction 1 as [|x y l k Hxy _ IH]; [done|].
  change (omap f (x :: l)) with (match f x with Some z => z :: omap f l | None => omap f l end).
  by rewrite Hxy, IH.
Qed.

Lemma join_names_Ok hp members s :
  join_names hp members = Ok s <->
  s = joined_name hp members
  /\ Forall (fun m => is_Some (MeasurementDoc.name (hp m))) members.
Proof.
  unfold join_names, joined_name.
  destruct (mapM _ members) as [names|] eqn:Hnames.
  - apply mapM_Some in Hnames. split.
    + intros [= <-]. split; [by rewrite (omap_Forall2_Some _ _ _ Hnames)|].
      induction Hnames; constructor; eauto.
    + intros [-> _]. by rewrite (omap_Forall2_Some _ _ _ Hnames).
  - split; [discriminate|]. intros [_ Hall]. exfalso.
    apply mapM_None in Hnames. apply Exists_exists in Hnames as (m & Hm & Hnone).
    rewrite Forall_forall in Hall. destruct (Hall m Hm) as [? ?]. congruence.
Qed.

Lemma joined_name_ext hp hp' members :
  (forall r, MeasurementDoc.name (hp' r) = MeasurementDoc.name (hp r)) ->
  joined_name hp' members = joined_name hp members.
Proof.
  intros Hext. unfold joined_name. f_equal.
  induction members as [|m members IH]; [done|].
  change (omap ?f (m :: members))
    with (match f m with Some z => z :: omap f members | None => omap f members end).
  cbv beta. by rewrite Hext, IH.
Qed.

(** Assigning one name to the grid field of every member of a group. *)
Lemma assign_all_grid name members : forall hp r,
  MeasurementDoc.grid (fold_left (fun hp m => assign_grid hp m name) members hp r)
  = if decide (r ∈ members) then name else MeasurementDoc.grid (hp r).
Proof.
  induction members as [|m members IH]; intros hp r; cbn [fold_left].
  - destruct (decide (r ∈ [])) as [Hin|]; [by apply elem_of_nil in Hin | done].
  - rewrite IH. unfold assign_grid.
    destruct (decide (r ∈ members)) as [Hin|Hnotin],
             (decide (r ∈ m :: members)) as [Hin'|Hnotin']; try done.
    + exfalso. apply Hnotin'. by right.
    + apply elem_of_cons in Hin' as [->|?]; [|done]. by rewrite decide_True.
    + rewrite decide_False; [done|]. intros ->. apply Hnotin'. left.
Qed.

Lemma assign_all_name name members : forall hp r,
  MeasurementDoc.name (fold_left (fun hp m => assign_grid hp m name) members hp r)
  = MeasurementDoc.name (hp r).
Proof.
  induction members as [|m members IH]; intros hp r; simpl; [done|].
  rewrite IH. unfold assign_grid. by case_decide.
Qed.

Lemma assign_all_path name members : forall hp r,
  MeasurementDoc.path (fold_left (fun hp m => assign_grid hp m name) members hp r)
  = MeasurementDoc.path (hp r).
Proof.
  induction members as [|m members IH]; intros hp r; simpl; [done|].
  rewrite IH. unfold assign_grid. by case_decide.
Qed.

Lemma name_grid_Ok hp grid members name hp1 named :
  name_grid hp grid members name = Ok (hp1, named) ->
  snd named = grid
  /\ (fst named = joined_name hp members \/ name = Some (fst named) /\ fst named <> "")
  /\ (forall r, MeasurementDoc.grid (hp1 r)
                = if decide (r ∈ members) then fst named
                  else MeasurementDoc.grid (hp r))
  /\ (forall r, MeasurementDoc.name (hp1 r) = MeasurementDoc.name (hp r)).
Proof.
  unfold name_grid. intros Hng. inv_bind Hng. injection Hng as <- <-. simpl.
  split; [done|]. split.
  - destruct name as [n|]; [destruct (decide (n = "")) as [->|Hn]|].
    + left. by apply join_names_Ok in Ha as [-> _].
    + right. injection Ha as <-. done.
    + left. by apply join_names_Ok in Ha as [-> _].
  - split; intros r; [apply assign_all_grid | apply assign_all_name].
Qed.

Lemma name_grid_default hp grid members hp1 named :
  name_grid hp grid members (Some "default") = Ok (hp1, named) ->
  fst named = "default".
Proof. unfold name_grid. simpl. by intros [= <- <-]. Qed.

Lemma name_grid_joined hp grid members hp1 named :
  name_grid hp grid members None = Ok (hp1, named) ->
  fst named = joined_name hp members.
Proof.
  unfold name_grid. intros Hng. inv_bind Hng. injection Hng as <- <-. simpl.
  by apply join_names_Ok in Ha as [-> _].
Qed.

Lemma name_grids_Ok gs : forall hp hp1 named,
  name_grids hp gs = Ok (hp1, named) ->
  named = (fun gm => (joined_name hp (snd gm), fst gm)) <$> gs
  /\ (forall r, MeasurementDoc.name (hp1 r) = MeasurementDoc.name (hp r))
  /\ (forall r, (forall gm, gm ∈ gs -> r ∉ snd gm) ->
                MeasurementDoc.grid (hp1 r) = MeasurementDoc.grid (hp r))
  /\ (forall r gm, gm ∈ gs -> r ∈ snd gm ->
                   MeasurementDoc.grid (hp1 r) ∈ fst <$> named)
  /\ (forall owner : ref -> option GridDoc.t,
        (forall gm r, gm ∈ gs -> r ∈ snd gm -> owner r = Some (fst gm)) ->
        NoDup (fst <$> gs) ->
        forall gm r, gm ∈ gs -> r ∈ snd gm ->
                     MeasurementDoc.grid (hp1 r) = joined_name hp (snd gm)).
Proof.
  induction gs as [|g gs IH]; intros hp hp1 named Hgs; simpl in Hgs.
  - injection Hgs as <- <-. split_and!; try done.
    + intros r gm Hgm. by apply elem_of_nil in Hgm.
    + intros owner _ _ gm r Hgm. by apply elem_of_nil in Hgm.
  - inv_bind Hgs. destruct a as [hp0 named0]. simpl in Hgs.
    inv_bind Hgs. destruct a as [hp0' rest]. simpl in Hgs.
    injection Hgs as <- <-.
    pose proof (name_grid_joined _ _ _ _ _ Ha) as Hjoined.
    apply name_grid_Ok in Ha as (Hsnd & _ & Hgrid0 & Hname0).
    apply IH in Ha0 as (-> & Hname & Hkeep & Hkeys & Howned).
    assert (Hnamed0 : named0 = (joined_name hp (snd g), fst g)).
    { destruct named0; simpl in *; congruence. }
    split_and!.
    + rewrite fmap_cons. f_equal; [done|].
      apply list_fmap_ext. intros _ gm _. simpl. f_equal. by apply joined_name_ext.
    + intros r. by rewrite Hname, Hname0.
    + intros r Hr. rewrite Hkeep, Hgrid0.
      * rewrite decide_False; [done|]. apply Hr. left.
      * intros gm Hgm. apply Hr. by right.
    + intros r gm Hgm Hr. rewrite fmap_cons.
      apply elem_of_cons in Hgm as [->|Hgm].
      * destruct (decide (Exists (fun gm => r ∈ snd gm) gs)) as [Hex|Hnex].
        -- apply Exists_exists in Hex as (gm' & Hgm' & Hr'). right. by eapply Hkeys.
        -- apply elem_of_cons. left. rewrite Hkeep, Hgrid0.
           ++ by rewrite decide_True.
           ++ intros gm' Hgm' Hr'. apply Hnex, Exists_exists. eauto.
      * right. by eapply Hkeys.
    + intros owner Hown Hnd gm r Hgm Hr. rewrite fmap_cons in Hnd.
      apply NoDup_cons in Hnd as [Hfresh Hnd].
      apply elem_of_cons in Hgm as [->|Hgm].
      * rewrite Hkeep, Hgrid0.
        -- rewrite decide_True by done. by rewrite Hnamed0.
        -- intros gm' Hgm' Hr'. apply Hfresh.
           assert (fst gm' = fst g) as <-.
           { assert (Some (fst gm') = Some (fst g)) as [=]; [|done].
             rewrite <- (Hown gm' r), <- (Hown g r); [done | left | done | by right | done]. }
           apply list_elem_of_fmap. eauto.
      * rewrite (Howned owner) with (gm := gm); [by apply joined_name_ext | | done..].
        intros gm' r' Hgm' Hr'. apply Hown; [by right | done].
Qed.

(** Naming succeeds only on groups whose members all have a name. *)
Lemma name_grids_named gs : forall hp hp1 named,
  name_grids hp gs = Ok (hp1, named) ->
  forall gm m, gm ∈ gs -> m ∈ snd gm -> is_Some (MeasurementDoc.name (hp m)).
Proof.
  induction gs as [|g gs IH]; intros hp hp1 named Hgs gm m Hgm Hm; simpl in Hgs.
  - by apply elem_of_nil in Hgm.
  - inv_bind Hgs. destruct a as [hp0 named0]. simpl in Hgs.
    inv_bind Hgs. destruct a as [hp0' rest]. simpl in Hgs.
    apply elem_of_cons in Hgm as [->|Hgm].
    + unfold name_grid in Ha. inv_bind Ha.
      apply join_names_Ok in Ha1 as [_ Hall].
      rewrite Forall_forall in Hall. by apply Hall.
    + apply name_grid_Ok in Ha as (_ & _ & _ & Hname0).
      rewrite <- Hname0. by eapply IH.
Qed.


(** ** The structure of a successful call *)

Section RegionFacts.
Variable fs : rasterio.filesystem.
Variable cwd : string.
Variable path : pathlib.Path.
Variable mask_value : option Z.


Lemma valid_region_Ok hp ms hp' geom grids :
  (valid_region fs cwd path mask_value) hp ms = Ok (hp', (geom, grids)) ->
  exists st front most hp1 last_mask last_transform,
    ms <> []
    /\ (loop fs cwd path mask_value) hp loop_init ms = Ok st
    /\ sorted count_key (dict_items (measurements_by_grid st)) = front ++ [most]
    /\ name_grid hp (fst most) (snd most) (Some "default")
       = Ok (hp1, ("default", fst most))
    /\ name_grids hp1 front
       = Ok (hp', (fun gm => (joined_name hp1 (snd gm), fst gm)) <$> front)
    /\ grids = dict_of_pairs
                 (("default", fst most)
                    :: ((fun gm => (joined_name hp1 (snd gm), fst gm)) <$> front))
    /\ mask st = Some last_mask
    /\ transform st = Some last_transform
    /\ geom =
       shapely.affine_transform
         (shapely.intersection
            (shapely.simplify
               (shapely.buffer
                  (shapely.convex_hull
                     (shapely.unary_union_of_valid
                        ((fun mask => shapely.features_shapes (numpy.astype_uint8 mask) mask)
                           <$> dict_values (mask_by_grid st))))
                  1 3 3)
               1)
            (shapely.box 0 0 (snd (ndshape last_mask)) (fst (ndshape last_mask))))
         (Affine.a last_transform, Affine.b last_transform,
          Affine.d last_transform, Affine.e last_transform,
          Affine.xoff last_transform, Affine.yoff last_transform).
Proof.
  unfold valid_region. intros Hvr.
  destruct (decide (ms = [])) as [|Hne]; [discriminate|].
  inv_bind Hvr. rename a into st. fold count_key in Hvr.
  destruct (last _) as [most|] eqn:Hlast; [|discriminate].
  apply sorted_last_greatest in Hlast as (Hsplit & _ & _).
  set (front := removelast _) in *.
  inv_bind Hvr. destruct a as [hp1 default]. simpl in Hvr.
  inv_bind Hvr. destruct a as [hp2 others]. simpl in Hvr.
  destruct (mask st) as [last_mask|] eqn:Hmask; [|discriminate].
  destruct (transform st) as [last_transform|] eqn:Htransform; [|discriminate].
  injection Hvr as <- <- <-.
  pose proof (name_grid_default _ _ _ _ _ Ha0) as Hdefault.
  pose proof (name_grid_Ok _ _ _ _ _ _ Ha0) as (Hsnd & _).
  assert (default = ("default", fst most)) as ->.
  { destruct default; simpl in *; congruence. }
  pose proof (name_grids_Ok _ _ _ _ Ha1) as (-> & _).
  exists st, front, most, hp1, last_mask, last_transform.
  split_and!; done.
Qed.

(** The groups of a collection, as the loop leaves them. *)
Lemma groups_of_invariant hp ms st :
  (loop_invariant fs cwd path mask_value) hp ms st ->
  NoDup (fst <$> dict_items (measurements_by_grid st))
  /\ (forall grid members,
        (grid, members) ∈ dict_items (measurements_by_grid st)
        <-> members <> [] /\ members = (members_of fs cwd path) hp ms grid)
  /\ (forall m, m ∈ ms ->
        exists grid, (grid_of fs cwd path) hp m = Some grid
                     /\ m ∈ (members_of fs cwd path) hp ms grid).
Proof.
  intros [Hkeys Hgroups _ _ _ Hseen]. split; [exact Hkeys|]. split.
  - intros grid members. unfold dict_items. split.
    + intros Hin. apply elem_dict_get in Hin; [|done].
      rewrite Hgroups in Hin.
      destruct ((members_of fs cwd path) hp ms grid); [discriminate|]. by injection Hin as <-.
    + intros [Hne ->]. apply dict_get_Some_elem. rewrite Hgroups.
      by destruct ((members_of fs cwd path) hp ms grid).
  - intros m Hm. destruct (Hseen m Hm) as (ds & pixels & Hds & _).
    exists (grid_of_raster ds).
    assert ((grid_of fs cwd path) hp m = Some (grid_of_raster ds)) as Hg.
    { unfold grid_of. by rewrite Hds. }
    split; [done|]. unfold members_of. by apply list_elem_of_filter.
Qed.

Lemma valid_region_naming hp ms hp' geom grids :
  (valid_region fs cwd path mask_value) hp ms = Ok (hp', (geom, grids)) ->
  exists front most,
    NoDup (fst <$> front ++ [most])
    /\ (forall grid members,
          (grid, members) ∈ front ++ [most]
          <-> members <> [] /\ members = (members_of fs cwd path) hp ms grid)
    /\ (forall m, m ∈ ms -> exists gm, gm ∈ front ++ [most] /\ m ∈ snd gm)
    /\ ascending count_key (front ++ [most])
    /\ grids = dict_of_pairs
                 (("default", fst most)
                    :: ((fun gm => (joined_name hp (snd gm), fst gm)) <$> front))
    /\ (forall m, m ∈ snd most -> MeasurementDoc.grid (hp' m) = "default")
    /\ (forall gm m, gm ∈ front -> m ∈ snd gm ->
          MeasurementDoc.grid (hp' m) = joined_name hp (snd gm))
    /\ (forall gm m, gm ∈ front -> m ∈ snd gm ->
          is_Some (MeasurementDoc.name (hp m))).
Proof.
  intros Hvr.
  apply valid_region_Ok in Hvr
    as (st & front & most & hp1 & lm & lt & Hne & Hloop & Hsorted & Hdef & Hothers & -> & _).
  pose proof (name_grids_named _ _ _ _ Hothers) as Hnamed.
  pose proof (loop_invariant_loop fs cwd path mask_value hp ms [] _ _
                (loop_invariant_init fs cwd path mask_value hp) Hloop) as Hinv.
  simpl in Hinv. apply groups_of_invariant in Hinv as (Hnd & Hgroups & Hall).
  pose proof (sorted_Permutation count_key (dict_items (measurements_by_grid st))) as Hperm.
  rewrite Hsorted in Hperm.
  assert (Hnd' : NoDup (fst <$> front ++ [most])) by (by rewrite Hperm).
  assert (Hgroups' : forall grid members,
             (grid, members) ∈ front ++ [most]
             <-> members <> [] /\ members = (members_of fs cwd path) hp ms grid).
  { intros grid members. by rewrite Hperm. }
  assert (Hown : forall gm r, gm ∈ front ++ [most] -> r ∈ snd gm ->
                              (grid_of fs cwd path) hp r = Some (fst gm)).
  { intros [grid members] r Hgm Hr. apply Hgroups' in Hgm as [_ ->]. simpl in *.
    unfold members_of in Hr. by apply list_elem_of_filter in Hr as [? _]. }
  apply name_grid_Ok in Hdef as (_ & _ & Hgrid1 & Hname1). simpl in Hgrid1.
  apply name_grids_Ok in Hothers as (_ & _ & Hkeep & _ & Howned).
  assert (Hext : forall members, joined_name hp1 members = joined_name hp members).
  { intros members. by apply joined_name_ext. }
  exists front, most. split_and!; try done.
  - intros m Hm. destruct (Hall m Hm) as (grid & Hg & Hin).
    exists (grid, (members_of fs cwd path) hp ms grid). split; [|done].
    apply Hgroups'. split; [|done]. intros Hnil. rewrite Hnil in Hin.
    by apply elem_of_nil in Hin.
  - rewrite <- Hsorted. apply sorted_ascending.
  - f_equal. f_equal. apply list_fmap_ext. intros _ gm _. by rewrite Hext.
  - intros m Hm. rewrite Hkeep, Hgrid1; [by rewrite decide_True|].
    intros gm Hgm Hm'.
    rewrite fmap_app in Hnd'. apply NoDup_app in Hnd' as (_ & Hdisj & _).
    apply (Hdisj (fst gm)).
    + apply list_elem_of_fmap. eauto.
    + assert (Some (fst gm) = Some (fst most)) as [= ->]; [|simpl; left].
      rewrite <- (Hown gm m), <- (Hown most m); try done.
      * rewrite elem_of_app, list_elem_of_singleton. auto.
      * rewrite elem_of_app. auto.
  - intros gm m Hgm Hm. rewrite <- Hext.
    apply (Howned ((grid_of fs cwd path) hp)); try done.
    + intros gm' r Hgm' Hr. apply Hown; [|done]. rewrite elem_of_app. auto.
    + rewrite fmap_app in Hnd'. by apply NoDup_app in Hnd' as (? & _).
  - intros gm m Hgm Hm. rewrite <- Hname1. by eapply Hnamed.
Qed.

End RegionFacts.

Lemma most_members_Permutation fs cwd path hp ms ms2 grid :
  ms ≡ₚ ms2 ->
  most_members fs cwd path hp ms grid -> most_members fs cwd path hp ms2 grid.
Proof.
  intros Hperm Hmost other Hother. unfold members_of. rewrite <- !Hperm.
  by apply Hmost.
Qed.

(** The grid with strictly the most members is the one named "default". *)
Lemma most_members_default fs cwd path mask_value hp ms hp' out grid :
  valid_region fs cwd path mask_value hp ms = Ok (hp', out) ->
  most_members fs cwd path hp ms grid ->
  forall m, m ∈ ms -> grid_of fs cwd path hp m = Some grid ->
            MeasurementDoc.grid (hp' m) = "default".
Proof.
  destruct out as [geom grids]. intros Hvr Hmost m Hm Hgrid.
  apply valid_region_naming in Hvr
    as (front & most & _ & Hgroups & _ & Hasc & _ & Hdefault & _ & _).
  assert (Hin : m ∈ members_of fs cwd path hp ms grid).
  { unfold members_of. by apply list_elem_of_filter. }
  assert (Hg : (grid, members_of fs cwd path hp ms grid) ∈ front ++ [most]).
  { apply Hgroups. split; [|done]. intros Hnil. rewrite Hnil in Hin.
    by apply elem_of_nil in Hin. }
  assert (Hm' : (fst most, snd most) ∈ front ++ [most]).
  { rewrite <- surjective_pairing, elem_of_app, list_elem_of_singleton. auto. }
  apply Hgroups in Hm' as [_ Hmembers].
  destruct (decide (fst most = grid)) as [Heq|Hne].
  - apply Hdefault. by rewrite Hmembers, Heq.
  - exfalso. specialize (Hmost (fst most) Hne).
    apply elem_of_app in Hg as [Hg|Hg].
    + pose proof (ascending_app_last count_key front most Hasc _ Hg) as Hle.
      unfold count_key in Hle. simpl in Hle. rewrite Hmembers in Hle. lia.
    + apply list_elem_of_singleton in Hg. apply Hne. by rewrite <- Hg.
Qed.

(** ** Examples *)

(** The doctests of [resolve_absolute_offset]. *)
Example resolve_external_metadata :
  resolve_absolute_offset "/home/user" (pathlib.of_string "/tmp/great_test_dataset")
    "band/my_great_band.jpg" (Some (pathlib.of_string "/tmp/target-metadata.yaml"))
  = "/tmp/great_test_dataset/band/my_great_band.jpg".
Proof. reflexivity. Qed.

Example resolve_tar_gz :
  resolve_absolute_offset "/home/user" (pathlib.of_string "/tmp/great_test_dataset.tar.gz")
    "band/my_great_band.jpg" (Some (pathlib.of_string "/tmp/target-metadata.yaml"))
  = "tar:/tmp/great_test_dataset.tar.gz!band/my_great_band.jpg".
Proof. reflexivity. Qed.

Example resolve_tar :
  resolve_absolute_offset "/home/user" (pathlib.of_string "/tmp/great_test_dataset.tar")
    "band/my_great_band.jpg" None
  = "tar:/tmp/great_test_dataset.tar!band/my_great_band.jpg".
Proof. reflexivity. Qed.

Example resolve_internal_metadata :
  resolve_absolute_offset "/home/user" (pathlib.of_string "/tmp/MY_DATASET")
    "band/my_great_band.jpg" (Some (pathlib.of_string "/tmp/MY_DATASET/ga-metadata.yaml"))
  = "band/my_great_band.jpg".
Proof. reflexivity. Qed.

(** A relative dataset root is resolved against the working directory. *)
Example resolve_relative_root :
  resolve_absolute_offset "/home/user" (pathlib.of_string "scene.tar") "bandA.tif" None
  = "tar:/home/user/scene.tar!bandA.tif".
Proof. reflexivity. Qed.

(** The inside test compares text: a sibling directory whose name extends
    the root's counts as inside. *)
Example resolve_sibling_prefix :
  resolve_absolute_offset "/home/user" (pathlib.of_string "/tmp/MY_DATASET")
    "band/my_great_band.jpg" (Some (pathlib.of_string "/tmp/MY_DATASET2/ga-metadata.yaml"))
  = "band/my_great_band.jpg".
Proof. reflexivity. Qed.

(** Two bands on the 10-unit grid and one on the 20-unit grid. *)
Example naming_majority :
  outcome (valid_region Scene.fs Scene.cwd Scene.root None Scene.hp [2; 0; 1]) [0; 1; 2]
  = Some (["default"; "default"; "pan"], ["default"; "pan"]).
Proof. reflexivity. Qed.

(** With one band on each grid, the grid met last is the default. *)
Example naming_tie_first :
  outcome (valid_region Scene.fs Scene.cwd Scene.root None Scene.hp [0; 2]) [0; 2]
  = Some (["red"; "default"], ["default"; "red"]).
Proof. reflexivity. Qed.

Example naming_tie_second :
  outcome (valid_region Scene.fs Scene.cwd Scene.root None Scene.hp [2; 0]) [0; 2]
  = Some (["default"; "pan"], ["default"; "pan"]).
Proof. reflexivity. Qed.

(** The same document supplied several times counts each time. *)
Example naming_aliased :
  outcome (valid_region Scene.fs Scene.cwd Scene.root None Scene.hp [2; 0; 2; 1; 2]) [0; 1; 2]
  = Some (["red_nir"; "red_nir"; "default"], ["default"; "red_nir"]).
Proof. reflexivity. Qed.

(** A raster that cannot be opened, met before a three-band one. *)
Example missing_file_first :
  valid_region Scene.fs Scene.cwd Scene.root None Scene.hp [5; 3]
  = Raise (RasterioIOError "/data/scene/lost.tif").
Proof. reflexivity. Qed.

Example three_bands :
  valid_region Scene.fs Scene.cwd Scene.root None Scene.hp [0; 3]
  = Raise (NotImplementedError
             "Only single-band tifs currently supported. File '/data/scene/rgb.tif'").
Proof. reflexivity. Qed.

(** * The properties of the design document *)

(** C1: the measurements are grouped by identical Grid (the groups have
    distinct grids, each holds exactly the measurements of its grid in
    supplied order, and every measurement is in one); the groups are
    sorted by member count ascending, so the last one, [most], has the
    most members; it is named "default" and every other group is named by
    joining its members' names, all of which are set, with "_"; each
    measurement's grid field is set to its group's name.  In particular a grid with strictly more
    members than any other is the one named "default", in whatever order
    the measurements are supplied. *)
Theorem C1_grid_naming fs cwd path mask_value hp ms hp' geom grids :
  valid_region fs cwd path mask_value hp ms = Ok (hp', (geom, grids)) ->
  exists front most,
    NoDup (fst <$> front ++ [most])
    /\ (forall grid members,
          (grid, members) ∈ front ++ [most]
          <-> members <> [] /\ members = members_of fs cwd path hp ms grid)
    /\ (forall m, m ∈ ms -> exists gm, gm ∈ front ++ [most] /\ m ∈ snd gm)
    /\ ascending count_key (front ++ [most])
    /\ grids = dict_of_pairs
                 (("default", fst most)
                    :: ((fun gm => (joined_name hp (snd gm), fst gm)) <$> front))
    /\ (forall m, m ∈ snd most -> MeasurementDoc.grid (hp' m) = "default")
    /\ (forall gm m, gm ∈ front -> m ∈ snd gm ->
          MeasurementDoc.grid (hp' m) = joined_name hp (snd gm))
    /\ (forall gm m, gm ∈ front -> m ∈ snd gm ->
          is_Some (MeasurementDoc.name (hp m)))
    /\ (forall grid ms2 hp2 out2,
          most_members fs cwd path hp ms grid ->
          ms ≡ₚ ms2 ->
          valid_region fs cwd path mask_value hp ms2 = Ok (hp2, out2) ->
          forall m, m ∈ ms2 -> grid_of fs cwd path hp m = Some grid ->
                    MeasurementDoc.grid (hp2 m) = "default").
Proof.
  intros Hvr.
  destruct (valid_region_naming _ _ _ _ _ _ _ _ _ Hvr)
    as (front & most & H1 & H2 & H3 & H4 & H5 & H6 & H7 & H8).
  exists front, most. split_and!; try done.
  intros grid ms2 hp2 out2 Hmost Hperm Hvr2 m Hm Hgrid.
  eapply most_members_default; [exact Hvr2 | | done..].
  by eapply most_members_Permutation.
Qed.

Lemma C1_grid_naming_witness :
  exists hp' geom grids,
    valid_region Scene.fs Scene.cwd Scene.root None Scene.hp [0; 1; 2]
    = Ok (hp', (geom, grids))
    /\ exists front most,
      NoDup (fst <$> front ++ [most])
      /\ (forall grid members,
            (grid, members) ∈ front ++ [most]
            <-> members <> []
                /\ members = members_of Scene.fs Scene.cwd Scene.root Scene.hp
                                        [0; 1; 2] grid)
      /\ (forall m, m ∈ [0; 1; 2] -> exists gm, gm ∈ front ++ [most] /\ m ∈ snd gm)
      /\ ascending count_key (front ++ [most])
      /\ grids = dict_of_pairs
                   (("default", fst most)
                      :: ((fun gm => (joined_name Scene.hp (snd gm), fst gm)) <$> front))
      /\ (forall m, m ∈ snd most -> MeasurementDoc.grid (hp' m) = "default")
      /\ (forall gm m, gm ∈ front -> m ∈ snd gm ->
            MeasurementDoc.grid (hp' m) = joined_name Scene.hp (snd gm))
      /\ (forall gm m, gm ∈ front -> m ∈ snd gm ->
            is_Some (MeasurementDoc.name (Scene.hp m)))
      /\ (forall grid ms2 hp2 out2,
            most_members Scene.fs Scene.cwd Scene.root Scene.hp [0; 1; 2] grid ->
            [0; 1; 2] ≡ₚ ms2 ->
            valid_region Scene.fs Scene.cwd Scene.root None Scene.hp ms2 = Ok (hp2, out2) ->
            forall m, m ∈ ms2 ->
                      grid_of Scene.fs Scene.cwd Scene.root Scene.hp m = Some grid ->
                      MeasurementDoc.grid (hp2 m) = "default").
Proof.
  eexists _, _, _. split; [reflexivity|].
  eapply (C1_grid_naming Scene.fs Scene.cwd Scene.root None Scene.hp [0; 1; 2]).
  reflexivity.
Defined.

(** C4: an empty collection of measurements is rejected with the
    "no measurements" [ValueError] (the InputError of the design
    document), and nothing is returned. *)
Theorem C4_no_measurements fs cwd path mask_value hp :
  valid_region fs cwd path mask_value hp []
  = Raise (ValueError "No measurements: cannot calculate valid region").
Proof. reflexivity. Qed.



Lemma loop_app fs cwd path mask_value hp l1 l2 : forall st,
  loop fs cwd path mask_value hp st (l1 ++ l2)
  = loop fs cwd path mask_value hp st l1
      ≫= fun st1 => loop fs cwd path mask_value hp st1 l2.
Proof.
  induction l1 as [|m l1 IH]; intros st; simpl; [done|].
  destruct (loop_body fs cwd path mask_value hp st m); simpl; [apply IH | done].
Qed.



(** C10: after a successful call every measurement that was passed in
    points, through its grid field, at a key of the returned mapping. *)
Theorem C10_grid_field_is_key fs cwd path mask_value hp ms hp' geom grids :
  valid_region fs cwd path mask_value hp ms = Ok (hp', (geom, grids)) ->
  forall m, m ∈ ms -> MeasurementDoc.grid (hp' m) ∈ dict_keys grids.
Proof.
  intros Hvr m Hm.
  apply valid_region_naming in Hvr
    as (front & most & _ & _ & Hall & _ & -> & Hdefault & Hjoined & _).
  apply elem_of_dict_of_pairs_keys. rewrite fmap_cons. simpl.
  destruct (Hall m Hm) as (gm & Hgm & Hin).
  apply elem_of_app in Hgm as [Hgm|Hgm].
  - right. rewrite (Hjoined gm m Hgm Hin).
    rewrite <- list_fmap_compose. apply list_elem_of_fmap. by exists gm.
  - apply list_elem_of_singleton in Hgm as ->. rewrite (Hdefault m Hin). left.
Qed.

Lemma C10_grid_field_is_key_witness :
  exists hp' geom grids,
    valid_region Scene.fs Scene.cwd Scene.root None Scene.hp [2; 0; 2; 1]
    = Ok (hp', (geom, grids))
    /\ forall m, m ∈ [2; 0; 2; 1] -> MeasurementDoc.grid (hp' m) ∈ dict_keys grids.
Proof.
  eexists _, _, _. split; [reflexivity|].
  eapply (C10_grid_field_is_key Scene.fs Scene.cwd Scene.root None Scene.hp [2; 0; 2; 1]).
  reflexivity.
Defined.

(** ** Masks *)

Lemma ior_shape_fold others : forall first,
  ndshape (fold_left numpy.ior others first) = ndshape first.
Proof. induction others as [|o os IH]; intros first; simpl; [done|]. by rewrite IH. Qed.

Lemma ior_lookup_true a b i :
  nddata (numpy.ior a b) !! i = Some true
  <-> (is_Some (nddata a !! i) /\ is_Some (nddata b !! i))
      /\ (nddata a !! i = Some true \/ nddata b !! i = Some true).
Proof.
  unfold numpy.ior. simpl. rewrite lookup_zip_with.
  destruct (nddata a !! i) as [[|]|], (nddata b !! i) as [[|]|]; simpl;
    (split; [intros [=] || intros _ | intros [[[? ?] [? ?]] [?|?]]]);
    try done; try (split; [split|]; eauto; done).
Qed.

Lemma ior_lookup_is_Some a b i :
  is_Some (nddata (numpy.ior a b) !! i)
  <-> is_Some (nddata a !! i) /\ is_Some (nddata b !! i).
Proof.
  unfold numpy.ior. simpl. rewrite lookup_zip_with.
  destruct (nddata a !! i) as [x|], (nddata b !! i) as [y|]; simpl;
    split; try (intros [? [=]]); try (intros [[? [=]] ?]); try (intros [? [? [=]]]); eauto.
Qed.

(** Element [i] of the OR of some masks is set exactly when every mask has
    an element [i] and one of them has it set. *)
Lemma or_masks_lookup_true masks acc i :
  or_masks masks = Some acc ->
  nddata acc !! i = Some true
  <-> (forall mk, mk ∈ masks -> is_Some (nddata mk !! i))
      /\ (exists mk, mk ∈ masks /\ nddata mk !! i = Some true).
Proof.
  destruct masks as [|first others]; simpl; [discriminate|]. intros [= <-].
  revert first. induction others as [|o os IH]; intros first; simpl.
  - split.
    + intros Hi. split.
      * intros mk Hmk. apply list_elem_of_singleton in Hmk as ->. eauto.
      * exists first. split; [left | done].
    + intros [_ (mk & Hmk & Hi)]. by apply list_elem_of_singleton in Hmk as ->.
  - rewrite IH. split.
    + intros [Hall (mk & Hmk & Hi)]. split.
      * intros mk' Hmk'. apply elem_of_cons in Hmk' as [->|Hmk'].
        -- apply (ior_lookup_is_Some first o i), Hall. left.
        -- apply elem_of_cons in Hmk' as [->|Hmk'].
           ++ apply (ior_lookup_is_Some first o i), Hall. left.
           ++ apply Hall. by right.
      * apply elem_of_cons in Hmk as [->|Hmk].
        -- apply ior_lookup_true in Hi as [_ [Hi|Hi]].
           ++ exists first. split; [left | done].
           ++ exists o. split; [right; left | done].
        -- exists mk. split; [by do 2 right | done].
    + intros [Hall (mk & Hmk & Hi)]. split.
      * intros mk' Hmk'. apply elem_of_cons in Hmk' as [->|Hmk'].
        -- apply ior_lookup_is_Some. split; apply Hall; [left | right; left].
        -- apply Hall. by do 2 right.
      * assert (Hfo : is_Some (nddata first !! i) /\ is_Some (nddata o !! i)).
        { split; apply Hall; [left | right; left]. }
        apply elem_of_cons in Hmk as [->|Hmk]; [|apply elem_of_cons in Hmk as [->|Hmk]].
        -- exists (numpy.ior first o). split; [left|]. apply ior_lookup_true. auto.
        -- exists (numpy.ior first o). split; [left|]. apply ior_lookup_true. auto.
        -- exists mk. split; [by right | done].
Qed.

Lemma ior_fully_true a b :
  fully_true a \/ fully_true b -> fully_true (numpy.ior a b).
Proof.
  unfold fully_true, numpy.ior. simpl. intros Hab.
  apply Forall_lookup. intros i v Hi.
  rewrite lookup_zip_with in Hi.
  destruct (nddata a !! i) as [x|] eqn:Ha; [|discriminate].
  destruct (nddata b !! i) as [y|] eqn:Hb; [|discriminate].
  simpl in Hi. injection Hi as <-.
  destruct Hab as [H|H]; rewrite Forall_lookup in H.
  - by rewrite (H i x Ha).
  - rewrite (H i y Hb). by destruct x.
Qed.

(** One fully valid mask makes the OR fully valid. *)
Lemma or_masks_fully_true masks acc mk :
  or_masks masks = Some acc -> mk ∈ masks -> fully_true mk -> fully_true acc.
Proof.
  destruct masks as [|first others]; simpl; [discriminate|]. intros [= <-].
  revert first mk. induction others as [|o os IH]; intros first mk Hmk Htrue; simpl.
  - by apply list_elem_of_singleton in Hmk as ->.
  - apply elem_of_cons in Hmk as [->|Hmk]; [|apply elem_of_cons in Hmk as [->|Hmk]].
    + apply (IH _ (numpy.ior first o)); [left | apply ior_fully_true; auto].
    + apply (IH _ (numpy.ior first o)); [left | apply ior_fully_true; auto].
    + apply (IH _ mk); [by right | done].
Qed.

(** ** The geometry of a successful call *)

Lemma accumulated_mask_shape fs cwd path mask_value hp ms st grid acc :
  loop_invariant fs cwd path mask_value hp ms st ->
  dict_get (mask_by_grid st) grid = Some acc ->
  ndshape acc = GridDoc.shape grid.
Proof.
  intros Hinv Hacc. rewrite (inv_masks _ _ _ _ _ _ _ Hinv) in Hacc.
  destruct (omap _ _) as [|first others] eqn:Hmasks; simpl in Hacc; [discriminate|].
  injection Hacc as <-. rewrite ior_shape_fold.
  assert (Hfirst : first ∈ omap (mask_of fs cwd path mask_value hp)
                               (members_of fs cwd path hp ms grid)).
  { rewrite Hmasks. left. }
  apply list_elem_of_omap in Hfirst as (m & Hm & Hmk).
  unfold members_of in Hm. apply list_elem_of_filter in Hm as [Hgrid _].
  unfold mask_of in Hmk. unfold grid_of in Hgrid.
  destruct (raster_of fs cwd path hp m) as [ds|]; [|discriminate].
  destruct (rasterio.bands ds) as [|pixels [|? ?]]; try discriminate.
  injection Hmk as <-. injection Hgrid as <-. reflexivity.
Qed.

Lemma valid_region_geometry fs cwd path mask_value hp ms hp' geom grids :
  valid_region fs cwd path mask_value hp ms = Ok (hp', (geom, grids)) ->
  exists st m ds,
    loop fs cwd path mask_value hp loop_init ms = Ok st
    /\ loop_invariant fs cwd path mask_value hp ms st
    /\ last ms = Some m
    /\ raster_of fs cwd path hp m = Some ds
    /\ geom = clip_and_georeference ds
                (refine shapely.join_bevel shapely.cap_square
                   (shapely.unary_union_of_valid
                      ((fun mask => shapely.features_shapes (numpy.astype_uint8 mask) mask)
                         <$> dict_values (mask_by_grid st)))).
Proof.
  intros Hvr.
  apply valid_region_Ok in Hvr
    as (st & _ & _ & _ & lm & lt & Hne & Hloop & _ & _ & _ & _ & Hmask & Htransform & ->).
  pose proof (loop_invariant_loop fs cwd path mask_value hp ms [] _ _
                (loop_invariant_init fs cwd path mask_value hp) Hloop) as Hinv.
  simpl in Hinv.
  rewrite (inv_mask _ _ _ _ _ _ _ Hinv) in Hmask.
  rewrite (inv_transform _ _ _ _ _ _ _ Hinv) in Htransform.
  destruct (last ms) as [m|] eqn:Hlast; [|discriminate]. simpl in *.
  destruct (raster_of fs cwd path hp m) as [ds|] eqn:Hds; [|discriminate].
  simpl in *. injection Htransform as <-.
  unfold grid_of in Hmask. rewrite Hds in Hmask. simpl in Hmask.
  pose proof (accumulated_mask_shape _ _ _ _ _ _ _ _ _ Hinv Hmask) as Hshape.
  simpl in Hshape.
  exists st, m, ds. split_and!; try done.
  unfold clip_and_georeference, refine. rewrite Hshape.
  by destruct (rasterio.shape ds).
Qed.



(** C3: for every grid discovered by a successful call, the accumulated
    mask is the logical OR of the validity masks of all the measurements
    on that grid: element by element, it is set exactly when one of them
    is; hence one fully valid measurement makes the grid's mask fully
    valid.  These accumulated masks are the ones that are vectorised. *)
Theorem C3_accumulated_mask fs cwd path mask_value hp ms hp' geom grids :
  valid_region fs cwd path mask_value hp ms = Ok (hp', (geom, grids)) ->
  exists st,
    loop fs cwd path mask_value hp loop_init ms = Ok st
    /\ (forall m, m ∈ ms -> is_Some (mask_of fs cwd path mask_value hp m))
    /\ (forall grid,
          dict_get (mask_by_grid st) grid
          = or_masks (omap (mask_of fs cwd path mask_value hp)
                           (members_of fs cwd path hp ms grid)))
    /\ (forall grid acc i,
          dict_get (mask_by_grid st) grid = Some acc ->
          nddata acc !! i = Some true
          <-> (forall m, m ∈ members_of fs cwd path hp ms grid ->
                 exists mk, mask_of fs cwd path mask_value hp m = Some mk
                            /\ is_Some (nddata mk !! i))
              /\ (exists m mk, m ∈ members_of fs cwd path hp ms grid
                               /\ mask_of fs cwd path mask_value hp m = Some mk
                               /\ nddata mk !! i = Some true))
    /\ (forall grid acc m mk,
          dict_get (mask_by_grid st) grid = Some acc ->
          m ∈ members_of fs cwd path hp ms grid ->
          mask_of fs cwd path mask_value hp m = Some mk ->
          fully_true mk -> fully_true acc)
    /\ (exists ds shape,
          geom = clip_and_georeference ds shape
          /\ shape = refine shapely.join_bevel shapely.cap_square
                       (shapely.unary_union_of_valid
                          ((fun mask => shapely.features_shapes (numpy.astype_uint8 mask) mask)
                             <$> dict_values (mask_by_grid st)))).
Proof.
  intros Hvr.
  apply valid_region_geometry in Hvr as (st & m0 & ds0 & Hloop & Hinv & _ & _ & Hgeom).
  assert (Hmasks : forall m, m ∈ ms -> is_Some (mask_of fs cwd path mask_value hp m)).
  { intros m Hm.
    destruct (inv_seen _ _ _ _ _ _ _ Hinv m Hm) as (ds & pixels & Hds & Hb).
    unfold mask_of. rewrite Hds, Hb. eauto. }
  assert (Hsub : forall grid m, m ∈ members_of fs cwd path hp ms grid -> m ∈ ms).
  { intros grid m Hm. unfold members_of in Hm. by apply list_elem_of_filter in Hm as [_ ?]. }
  exists st. split_and!; try done.
  - apply (inv_masks _ _ _ _ _ _ _ Hinv).
  - intros grid acc i Hacc. rewrite (inv_masks _ _ _ _ _ _ _ Hinv) in Hacc.
    rewrite (or_masks_lookup_true _ _ i Hacc). split.
    + intros [Hall (mk & Hmk & Hi)]. split.
      * intros m Hm. destruct (Hmasks m (Hsub _ _ Hm)) as [mk' Hmk'].
        exists mk'. split; [done|]. apply Hall, list_elem_of_omap. eauto.
      * apply list_elem_of_omap in Hmk as (m & Hm & Hmk). eauto.
    + intros [Hall (m & mk & Hm & Hmk & Hi)]. split.
      * intros mk' Hmk'. apply list_elem_of_omap in Hmk' as (m' & Hm' & Hmk').
        destruct (Hall m' Hm') as (mk'' & Hmk'' & Hi'). congruence.
      * exists mk. split; [|done]. apply list_elem_of_omap. eauto.
  - intros grid acc m mk Hacc Hm Hmk Htrue.
    rewrite (inv_masks _ _ _ _ _ _ _ Hinv) in Hacc.
    eapply or_masks_fully_true; [exact Hacc | | exact Htrue].
    apply list_elem_of_omap. eauto.
  - eauto.
Qed.

Lemma C3_accumulated_mask_witness :
  exists hp' geom grids,
    valid_region Scene.fs Scene.cwd Scene.root None Scene.hp [1; 0]
    = Ok (hp', (geom, grids))
    /\ exists st,
      loop Scene.fs Scene.cwd Scene.root None Scene.hp loop_init [1; 0] = Ok st
      /\ dict_get (mask_by_grid st) (grid_of_raster Scene.red)
         = Some (mk_ndarray (2, 2)%Z [true; true; true; true])
      /\ mask_of Scene.fs Scene.cwd Scene.root None Scene.hp 1
         = Some (mk_ndarray (2, 2)%Z [false; false; true; true])
      /\ mask_of Scene.fs Scene.cwd Scene.root None Scene.hp 0
         = Some (mk_ndarray (2, 2)%Z [true; true; true; true])
      /\ forall grid acc m mk,
          dict_get (mask_by_grid st) grid = Some acc ->
          m ∈ members_of Scene.fs Scene.cwd Scene.root Scene.hp [1; 0] grid ->
          mask_of Scene.fs Scene.cwd Scene.root None Scene.hp m = Some mk ->
          fully_true mk -> fully_true acc.
Proof.
  eexists _, _, _. split; [reflexivity|].
  edestruct (C3_accumulated_mask Scene.fs Scene.cwd Scene.root None Scene.hp [1; 0])
    as (st & Hloop & _ & _ & _ & Htrue & _); [reflexivity|].
  exists st. split; [exact Hloop|].
  split_and!; [|reflexivity|reflexivity|exact Htrue].
  vm_compute in Hloop. by injection Hloop as <-.
Defined.

(** C6, as the code has it: the convex hull of the union of the polygons
    vectorised from the accumulated masks is buffered by 1 pixel unit with
    join style 3 and cap style 3, which are shapely's bevel join and
    square cap, and the buffered geometry is simplified with a tolerance
    of 1 pixel unit. *)
Theorem C6_buffer_and_simplify fs cwd path mask_value hp ms hp' geom grids :
  valid_region fs cwd path mask_value hp ms = Ok (hp', (geom, grids)) ->
  exists st ds,
    loop fs cwd path mask_value hp loop_init ms = Ok st
    /\ geom = clip_and_georeference ds
                (refine shapely.join_bevel shapely.cap_square
                   (shapely.unary_union_of_valid
                      ((fun mask => shapely.features_shapes (numpy.astype_uint8 mask) mask)
                         <$> dict_values (mask_by_grid st))))
    /\ forall shape,
         refine shapely.join_bevel shapely.cap_square shape
         = shapely.simplify (shapely.buffer (shapely.convex_hull shape) 1 3 3) 1.
Proof.
  intros Hvr.
  apply valid_region_geometry in Hvr as (st & m & ds & Hloop & _ & _ & _ & ->).
  by exists st, ds.
Qed.

Lemma C6_buffer_and_simplify_witness :
  exists hp' geom grids,
    valid_region Scene.fs Scene.cwd Scene.root None Scene.hp [0; 1; 2]
    = Ok (hp', (geom, grids))
    /\ exists st ds,
      loop Scene.fs Scene.cwd Scene.root None Scene.hp loop_init [0; 1; 2] = Ok st
      /\ geom = clip_and_georeference ds
                  (refine shapely.join_bevel shapely.cap_square
                     (shapely.unary_union_of_valid
                        ((fun mask => shapely.features_shapes (numpy.astype_uint8 mask) mask)
                           <$> dict_values (mask_by_grid st))))
      /\ forall shape,
           refine shapely.join_bevel shapely.cap_square shape
           = shapely.simplify (shapely.buffer (shapely.convex_hull shape) 1 3 3) 1.
Proof.
  eexists _, _, _. split; [reflexivity|].
  eapply (C6_buffer_and_simplify Scene.fs Scene.cwd Scene.root None Scene.hp [0; 1; 2]).
  reflexivity.
Defined.

(** C6 as stated fails: on the red band alone the call succeeds, and the
    geometry it returns is not a clipped and georeferenced hull that was
    buffered with a mitred join and a flat cap. *)
Lemma C6_counterexample :
  exists hp' geom grids,
    valid_region Scene.fs Scene.cwd Scene.root None Scene.hp [0]
    = Ok (hp', (geom, grids))
    /\ forall ds shape,
         geom <> clip_and_georeference ds
                   (refine shapely.join_mitre shapely.cap_flat shape).
Proof.
  eexists _, _, _. split; [reflexivity|].
  intros ds shape. unfold clip_and_georeference, refine.
  destruct (rasterio.shape ds). simpl. intros [=].
Qed.

(** C8: the simplified geometry is intersected with the pixel box
    [0, width] x [0, height] of the raster that was processed last, and
    the result is mapped by that raster's transform, passed as
    (a, b, d, e, xoff, yoff): a point (x, y) goes to
    (a x + b y + xoff, d x + e y + yoff). *)
Theorem C8_clip_and_transform fs cwd path mask_value hp ms hp' geom grids :
  valid_region fs cwd path mask_value hp ms = Ok (hp', (geom, grids)) ->
  exists m ds simplified,
    last ms = Some m
    /\ raster_of fs cwd path hp m = Some ds
    /\ (exists buffered, simplified = shapely.simplify buffered 1)
    /\ let height := fst (rasterio.shape ds) in
       let width := snd (rasterio.shape ds) in
       let T := rasterio.transform ds in
       let matrix := (Affine.a T, Affine.b T, Affine.d T, Affine.e T,
                      Affine.xoff T, Affine.yoff T) in
       geom = shapely.affine_transform
                (shapely.intersection simplified (shapely.box 0 0 width height))
                matrix
       /\ forall x y,
            shapely.affine_transform_point matrix (x, y)
            = (Affine.a T * x + Affine.b T * y + Affine.xoff T,
               Affine.d T * x + Affine.e T * y + Affine.yoff T)%Qc.
Proof.
  intros Hvr.
  apply valid_region_geometry in Hvr as (st & m & ds & _ & _ & Hlast & Hds & ->).
  eexists m, ds, _. split_and!; [done | done | by eexists |].
  unfold clip_and_georeference, refine. destruct (rasterio.shape ds). simpl.
  split; reflexivity.
Qed.

Lemma C8_clip_and_transform_witness :
  exists hp' geom grids,
    valid_region Scene.fs Scene.cwd Scene.root None Scene.hp [0; 1; 2]
    = Ok (hp', (geom, grids))
    /\ exists m ds simplified,
      last [0; 1; 2] = Some m
      /\ raster_of Scene.fs Scene.cwd Scene.root Scene.hp m = Some ds
      /\ (exists buffered, simplified = shapely.simplify buffered 1)
      /\ let height := fst (rasterio.shape ds) in
         let width := snd (rasterio.shape ds) in
         let T := rasterio.transform ds in
         let matrix := (Affine.a T, Affine.b T, Affine.d T, Affine.e T,
                        Affine.xoff T, Affine.yoff T) in
         geom = shapely.affine_transform
                  (shapely.intersection simplified (shapely.box 0 0 width height))
                  matrix
         /\ forall x y,
              shapely.affine_transform_point matrix (x, y)
              = (Affine.a T * x + Affine.b T * y + Affine.xoff T,
                 Affine.d T * x + Affine.e T * y + Affine.yoff T)%Qc.
Proof.
  eexists _, _, _. split; [reflexivity|].
  eapply (C8_clip_and_transform Scene.fs Scene.cwd Scene.root None Scene.hp [0; 1; 2]).
  reflexivity.
Defined.

(** ** Which calls fail, and how *)









(** ** Strings and paths *)

Lemma app_String c a b : String c a +:+ b = String c (a +:+ b).
Proof. reflexivity. Qed.

Lemma string_app_assoc a b c : (a +:+ b) +:+ c = a +:+ (b +:+ c).
Proof. induction a as [|ch a IH]; [done|]. by rewrite !app_String, IH. Qed.

Lemma string_app_not_empty a b : a <> "" -> a +:+ b <> "".
Proof. destruct a; [done|]. by rewrite app_String. Qed.

Lemma prefix_app a r : String.prefix a (a +:+ r) = true.
Proof.
  induction a as [|ch a IH].
  - by destruct r.
  - rewrite app_String. simpl. by destruct (ascii_dec ch ch).
Qed.

Lemma prefix_app_both a b c :
  String.prefix b c = true -> String.prefix (a +:+ b) (a +:+ c) = true.
Proof.
  intros Hbc. induction a as [|ch a IH]; [done|].
  rewrite !app_String. simpl. by destruct (ascii_dec ch ch).
Qed.

Lemma join_app_prefix sep l k :
  exists rest, Str.join sep (l ++ k) = Str.join sep l +:+ rest.
Proof.
  induction l as [|x [|y l] IH].
  - by exists (Str.join sep k).
  - destruct k as [|z k].
    + exists "". simpl. clear. induction x as [|ch x IH]; [done|].
      by rewrite app_String, <- IH.
    + by exists (sep +:+ Str.join sep (z :: k)).
  - destruct IH as [rest IH]. exists rest.
    change (Str.join sep ((x :: y :: l) ++ k))
      with (x +:+ sep +:+ Str.join sep ((y :: l) ++ k)).
    rewrite IH.
    change (Str.join sep (x :: y :: l)) with (x +:+ sep +:+ Str.join sep (y :: l)).
    by rewrite !string_app_assoc.
Qed.

Lemma join_app sep l k :
  l <> [] -> k <> [] ->
  Str.join sep (l ++ k) = Str.join sep l +:+ sep +:+ Str.join sep k.
Proof.
  intros Hl Hk. induction l as [|x [|y l] IH]; [done| |].
  - destruct k as [|z k]; [done|]. reflexivity.
  - change (Str.join sep ((x :: y :: l) ++ k))
      with (x +:+ sep +:+ Str.join sep ((y :: l) ++ k)).
    rewrite IH by done.
    change (Str.join sep (x :: y :: l)) with (x +:+ sep +:+ Str.join sep (y :: l)).
    by rewrite !string_app_assoc.
Qed.

Lemma split_not_nil sep x : Str.split sep x <> [].
Proof.
  induction x as [|ch x IH]; simpl; [done|].
  destruct (Ascii.eqb ch sep); [done|]. by destruct (Str.split sep x).
Qed.

Lemma split_whole_inv sep ch x :
  Str.split sep (String ch x) = [String ch x] ->
  Ascii.eqb ch sep = false /\ Str.split sep x = [x].
Proof.
  simpl. destruct (Ascii.eqb ch sep); [discriminate|].
  destruct (Str.split sep x) as [|w ws] eqn:Hx.
  - by apply split_not_nil in Hx.
  - by intros [= -> ->].
Qed.

Lemma split_app_sep sep x y :
  Str.split sep x = [x] ->
  Str.split sep (x +:+ String sep y) = x :: Str.split sep y.
Proof.
  induction x as [|ch x IH]; intros Hx.
  - simpl. by rewrite Ascii.eqb_refl.
  - apply split_whole_inv in Hx as [Hch Hx]. rewrite app_String.
    cbn [Str.split]. by rewrite Hch, IH.
Qed.

Lemma split_join sep comps :
  comps <> [] -> Forall (fun x => Str.split sep x = [x]) comps ->
  Str.split sep (Str.join (String sep "") comps) = comps.
Proof.
  intros Hne Hall. induction comps as [|x [|y l] IH]; [done| |].
  - apply Forall_cons in Hall as [Hx _]. exact Hx.
  - apply Forall_cons in Hall as [Hx Hall].
    change (Str.join (String sep "") (x :: y :: l))
      with (x +:+ String sep (Str.join (String sep "") (y :: l))).
    rewrite split_app_sep by done. by rewrite IH.
Qed.

Lemma filter_Forall_id {A : Type} (P : A -> Prop) `{forall x, Decision (P x)} l :
  Forall P l -> filter P l = l.
Proof.
  induction 1 as [|x l Hx _ IH]; [done|].
  rewrite filter_cons, decide_True by done. by rewrite IH.
Qed.

(** A relative offset in normal form parses into its components. *)
Lemma parse_normal_relative offset comps :
  normal_relative offset comps ->
  pathlib.parse_parts [offset] = pathlib.mkPath "" comps.
Proof.
  intros (Hne & Hall & ->).
  destruct comps as [|x rest]; [done|].
  assert (Hx : is_component x) by (by apply Forall_cons in Hall as [? _]).
  destruct Hx as (Hx1 & _ & Hx3).
  destruct x as [|ch x]; [done|].
  apply split_whole_inv in Hx3 as [Hch _].
  assert (Hjoin : exists tl, Str.join "/" (String ch x :: rest) = String ch tl).
  { destruct rest; [by exists x|]. by eexists. }
  destruct Hjoin as [tl Hjoin].
  assert (Hcomps : pathlib.components (Str.join "/" (String ch x :: rest))
                   = String ch x :: rest).
  { unfold pathlib.components, pathlib.sep.
    rewrite (split_join "/"%char) by (done || (eapply Forall_impl; [exact Hall|]; by intros ? (_ & _ & ?))).
    apply filter_Forall_id. eapply Forall_impl; [exact Hall|].
    by intros ? (? & ? & _). }
  unfold pathlib.parse_parts. cbn [rev app pathlib.parse_reversed].
  rewrite decide_False by (rewrite Hjoin; discriminate).
  assert (Hsplit : pathlib.splitroot (Str.join "/" (String ch x :: rest))
                   = ("", Str.join "/" (String ch x :: rest))).
  { rewrite Hjoin. unfold pathlib.splitroot. by rewrite Hch. }
  rewrite Hsplit. rewrite decide_True by done. rewrite Hcomps.
  by rewrite decide_True.
Qed.

Lemma str_anchored (p : pathlib.Path) :
  pathlib._root p <> "" ->
  pathlib.str p = pathlib._root p +:+ Str.join "/" (tail (pathlib._parts p)).
Proof.
  intros Hroot. unfold pathlib.str. cbv zeta.
  destruct (decide (pathlib._root p = "")) as [|_]; [done|].
  rewrite decide_False; [done|]. by apply string_app_not_empty.
Qed.

(** A path inside an anchored root starts, as text, with the root. *)
Lemma lives_inside_startswith target root :
  pathlib._root root <> "" ->
  lives_inside target root ->
  Str.startswith (pathlib.str target) (pathlib.str root) = true.
Proof.
  intros Hroot [Hsame [k Hparts]]. unfold Str.startswith.
  rewrite !str_anchored by congruence. rewrite Hsame, Hparts.
  destruct (pathlib._parts root) as [|p0 ps]; simpl; apply prefix_app_both.
  - by destruct (Str.join "/" (tail k)).
  - destruct (join_app_prefix "/" ps k) as [rest ->]. apply prefix_app.
Qed.

(** Joining an anchored root that has a component with a relative offset
    in normal form gives "<root>/<offset>". *)
Lemma truediv_normal_relative root offset comps :
  pathlib._root root <> "" ->
  tail (pathlib._parts root) <> [] ->
  normal_relative offset comps ->
  pathlib.str (pathlib.truediv root offset) = plain_join root offset.
Proof.
  intros Hroot Htail Hoffset. unfold pathlib.truediv, plain_join.
  rewrite (parse_normal_relative _ _ Hoffset). simpl.
  rewrite !str_anchored by done. simpl.
  destruct Hoffset as (Hne & _ & ->).
  destruct (pathlib._parts root) as [|p0 ps]; [done|]. simpl in *.
  rewrite join_app by done. by rewrite !string_app_assoc.
Qed.

Lemma tar_suffixed_suffixes p : tar_suffixed p -> ".tar" ∈ pathlib.suffixes p.
Proof.
  unfold tar_suffixed. intros Hlast. apply last_Some in Hlast as [l' ->].
  rewrite elem_of_app, list_elem_of_singleton. auto.
Qed.

(** C9, as the code has it.  The dataset root is taken in its absolute
    form.  A target path that lives inside the root leaves the offset
    unchanged.  When there is no target path, or the text of its absolute
    form does not start with the text of the root: a root with ".tar"
    among the suffixes of its name (a ".tar"-suffixed root in particular)
    gives "tar:<root>!<offset>", and any other root gives the pathlib join
    of root and offset, which reads "<root>/<offset>" when the offset is a
    relative path in normal form and the root has a component.  The
    scenario of the design document holds in every working directory. *)
Theorem C9_resolve_absolute_offset cwd dataset_path offset target_path :
  pathlib._root (pathlib.absolute cwd dataset_path) <> "" ->
  let dataset_root := pathlib.absolute cwd dataset_path in
  let resolved := resolve_absolute_offset cwd dataset_path offset target_path in
  (forall target,
     target_path = Some target ->
     lives_inside (pathlib.absolute cwd target) dataset_root ->
     resolved = offset)
  /\ ((target_path = None
       \/ exists target,
            target_path = Some target
            /\ Str.startswith (pathlib.str (pathlib.absolute cwd target))
                              (pathlib.str dataset_root) = false) ->
      (".tar" ∈ pathlib.suffixes dataset_root ->
       resolved = "tar:" +:+ pathlib.str dataset_root +:+ "!" +:+ offset)
      /\ (".tar" ∉ pathlib.suffixes dataset_root ->
          resolved = pathlib.str (pathlib.truediv dataset_root offset)
          /\ forall comps,
               normal_relative offset comps ->
               tail (pathlib._parts dataset_root) <> [] ->
               resolved = plain_join dataset_root offset))
  /\ (tar_suffixed dataset_root -> ".tar" ∈ pathlib.suffixes dataset_root)
  /\ (forall cwd',
        resolve_absolute_offset cwd' (pathlib.of_string "/data/scene.tar")
                                "bandA.tif" None
        = "tar:/data/scene.tar!bandA.tif").
Proof.
  intros Hroot dataset_root resolved. subst dataset_root resolved. split_and!.
  - intros target -> Hinside. unfold resolve_absolute_offset. cbv zeta.
    by rewrite (lives_inside_startswith _ _ Hroot Hinside).
  - intros Houtside.
    set (dataset_root := pathlib.absolute cwd dataset_path) in *.
    assert (Hskip : resolve_absolute_offset cwd dataset_path offset target_path
                    = if bool_decide (".tar" ∈ pathlib.suffixes dataset_root)
                      then "tar:" +:+ pathlib.str dataset_root +:+ "!" +:+ offset
                      else pathlib.str (pathlib.truediv dataset_root offset)).
    { unfold resolve_absolute_offset. cbv zeta. fold dataset_root.
      destruct Houtside as [->|(target & -> & ->)]; reflexivity. }
    split.
    + intros Htar. by rewrite Hskip, bool_decide_eq_true_2.
    + intros Hplain. rewrite Hskip, bool_decide_eq_false_2 by done.
      split; [done|]. intros comps Hcomps Htail.
      by eapply truediv_normal_relative.
  - apply tar_suffixed_suffixes.
  - intros cwd'. reflexivity.
Qed.

Lemma C9_resolve_absolute_offset_witness :
  pathlib._root (pathlib.absolute Scene.cwd Scene.root) <> ""
  /\ resolve_absolute_offset Scene.cwd Scene.root "bands/red.tif" None
     = plain_join (pathlib.absolute Scene.cwd Scene.root) "bands/red.tif"
  /\ resolve_absolute_offset Scene.cwd Scene.root "bands/red.tif"
                             (Some (pathlib.of_string "/data/scene/ga-metadata.yaml"))
     = "bands/red.tif".
Proof.
  assert (Hroot : pathlib._root (pathlib.absolute Scene.cwd Scene.root) <> "")
    by (vm_compute; discriminate).
  split; [exact Hroot|]. split.
  - destruct (C9_resolve_absolute_offset Scene.cwd Scene.root "bands/red.tif" None Hroot)
      as (_ & Houtside & _).
    destruct (Houtside (or_introl eq_refl)) as (_ & Hplain).
    destruct Hplain as (_ & Hjoin).
    + vm_compute. intros Hin. by repeat (apply elem_of_cons in Hin as [?|Hin]; [done|]);
        apply elem_of_nil in Hin.
    + apply (Hjoin ["bands"; "red.tif"]).
      * split_and!; [done | | reflexivity].
        repeat constructor; done.
      * vm_compute. discriminate.
  - destruct (C9_resolve_absolute_offset Scene.cwd Scene.root "bands/red.tif"
                (Some (pathlib.of_string "/data/scene/ga-metadata.yaml")) Hroot)
      as (Hinside & _).
    apply (Hinside (pathlib.of_string "/data/scene/ga-metadata.yaml") eq_refl).
    split; [reflexivity|]. by exists ["ga-metadata.yaml"].
Defined.

(** C9 as stated fails.  A root named "....tar.gz" is not ".tar"-suffixed
    and its target lies elsewhere, yet the code answers with the archive
    locator (its own doctest); and an absolute offset replaces the root
    instead of being appended to it. *)
Lemma C9_counterexample :
  (resolve_absolute_offset "/home/user"
     (pathlib.of_string "/tmp/great_test_dataset.tar.gz") "band/my_great_band.jpg"
     (Some (pathlib.of_string "/tmp/target-metadata.yaml"))
   = "tar:/tmp/great_test_dataset.tar.gz!band/my_great_band.jpg"
   /\ resolve_as_stated "/home/user"
        (pathlib.of_string "/tmp/great_test_dataset.tar.gz") "band/my_great_band.jpg"
        (Some (pathlib.of_string "/tmp/target-metadata.yaml"))
      = "/tmp/great_test_dataset.tar.gz/band/my_great_band.jpg")
  /\ (resolve_absolute_offset "/home/user" (pathlib.of_string "/data/scene")
        "/vsimem/band.tif" None
      = "/vsimem/band.tif"
      /\ resolve_as_stated "/home/user" (pathlib.of_string "/data/scene")
           "/vsimem/band.tif" None
         = "/data/scene//vsimem/band.tif").
Proof. split; split; vm_compute; reflexivity. Qed.

(** * The rest of the package: properties *)

(** ** Strings *)

Lemma prefix_nil_r sep : sep <> "" -> String.prefix sep "" = false.
Proof. by destruct sep. Qed.

Lemma prefix_drop sep s :
  String.prefix sep s = true -> s = sep +:+ PyStr.drop (String.length sep) s.
Proof.
  revert s. induction sep as [|ch sep IH]; intros s Hp; [done|].
  destruct s as [|ch' s]; [done|]. simpl in Hp.
  destruct (ascii_dec ch ch') as [<-|]; [|done].
  rewrite app_String. simpl. f_equal. by apply IH.
Qed.

Lemma prefix_app_r p s t : String.prefix p s = true -> String.prefix p (s +:+ t) = true.
Proof.
  revert s. induction p as [|ch p IH]; intros s Hp.
  - by destruct (s +:+ t).
  - destruct s as [|ch' s]; [done|]. rewrite app_String. simpl in *.
    destruct (ascii_dec ch ch'); [by apply IH | done].
Qed.

Lemma partition_nil sep : sep <> "" -> PyStr.partition sep "" = None.
Proof. intros Hsep. by destruct sep. Qed.

Lemma partition_unfold sep s :
  PyStr.partition sep s
  = if String.prefix sep s then Some ("", PyStr.drop (String.length sep) s)
    else match s with
         | EmptyString => None
         | String ch rest =>
             match PyStr.partition sep rest with
             | Some (before, after) => Some (String ch before, after)
             | None => None
             end
         end.
Proof. by destruct s. Qed.

(** [partition] cuts the text at an occurrence of the separator. *)
Lemma partition_Some sep s before after :
  PyStr.partition sep s = Some (before, after) -> s = before +:+ sep +:+ after.
Proof.
  revert before after. induction s as [|ch s IH]; intros before after;
    rewrite partition_unfold.
  - destruct (String.prefix sep "") eqn:Hp; [|done].
    intros [= <- <-]. by apply prefix_drop in Hp.
  - destruct (String.prefix sep (String ch s)) eqn:Hp.
    + intros [= <- <-]. by apply prefix_drop in Hp.
    + destruct (PyStr.partition sep s) as [[b a]|]; [|done].
      intros [= <- <-]. rewrite app_String. f_equal. by apply IH.
Qed.

(** The text before the first separator holds no separator. *)
Lemma partition_section_free sep s before after :
  sep <> "" ->
  PyStr.partition sep s = Some (before, after) -> PyStr.partition sep before = None.
Proof.
  intros Hsep. revert before after.
  induction s as [|ch s IH]; intros before after; rewrite partition_unfold.
  - by rewrite prefix_nil_r.
  - destruct (String.prefix sep (String ch s)) eqn:Hp.
    + intros [= <- <-]. by apply partition_nil.
    + destruct (PyStr.partition sep s) as [[b a]|] eqn:Hs; [|done].
      intros [= <- <-]. rewrite partition_unfold, (IH _ _ eq_refl).
      destruct (String.prefix sep (String ch b)) eqn:Hp'; [|done].
      apply partition_Some in Hs. rewrite Hs in Hp.
      rewrite <- app_String in Hp.
      by rewrite (prefix_app_r _ _ (sep +:+ a) Hp') in Hp.
Qed.

(** ** [nest_properties] *)

Lemma computation_bind_Returns {A B : Type} (r : computation A)
    (k : A -> computation B) (v : B) :
  (r ≫= k) = Returns v -> exists a, r = Returns a /\ k a = Returns v.
Proof. destruct r as [a|err]; simpl; [eauto | discriminate]. Qed.

Lemma computation_bind_Raises {A B : Type} (r : computation A)
    (k : A -> computation B) err :
  (r ≫= k) = Raises err ->
  r = Raises err \/ exists a, r = Returns a /\ k a = Raises err.
Proof. destruct r as [a|err']; simpl; [eauto | intros [= ->]; auto]. Qed.

Lemma dict_set_fresh {K V : Type} `{EqDecision K} (dm : dict K V) k v :
  k ∉ dict_keys dm -> dict_set dm k v = dm ++ [(k, v)].
Proof.
  unfold dict_keys. induction dm as [|[k0 v0] dm IH]; [done|].
  rewrite fmap_cons, not_elem_of_cons. simpl. intros [Hne Hnotin].
  rewrite decide_False by done. by rewrite IH.
Qed.

Lemma split_section_free separator key :
  separator <> "" -> PyStr.partition separator key = None ->
  split_section separator key = Returns (key, None).
Proof. intros Hsep Hfree. unfold split_section. by rewrite decide_False, Hfree. Qed.

Lemma split_section_Some separator key section sub_key :
  separator <> "" -> PyStr.partition separator key = Some (section, sub_key) ->
  split_section separator key = Returns (section, Some sub_key).
Proof. intros Hsep Hcut. unfold split_section. by rewrite decide_False, Hcut. Qed.

(** Keys without a separator are stored as they come. *)
Lemma nest_items_separator_free separator items : forall out,
  separator <> "" ->
  Forall (fun item => PyStr.partition separator (fst item) = None) items ->
  NoDup (dict_keys out ++ dict_keys items) ->
  nest_items separator out items = Returns (out ++ items).
Proof.
  induction items as [|[key val] items IH]; intros out Hsep Hfree Hnd; simpl.
  - by rewrite app_nil_r.
  - apply Forall_cons in Hfree as [Hkey Hfree]. simpl in Hkey.
    rewrite split_section_free by done. simpl.
    unfold dict_keys in Hnd. rewrite fmap_cons in Hnd. simpl in Hnd.
    assert (Hfresh : key ∉ dict_keys out).
    { apply NoDup_app in Hnd as (_ & Hdisj & _). intros Hin.
      apply (Hdisj key Hin). left. }
    rewrite dict_set_fresh by done.
    rewrite IH; [by rewrite <- app_assoc | done | done |].
    unfold dict_keys. rewrite fmap_app, <- app_assoc. exact Hnd.
Qed.

Lemma nest_values_id nested out :
  Forall (fun item => match snd item with
                      | VDict items => nested items = Returns items
                      | _ => True
                      end) out ->
  nest_values nested out = Returns out.
Proof.
  induction 1 as [|[key val] out Hval _ IH]; simpl; [done|].
  simpl in Hval. destruct val; simpl; rewrite ?Hval; simpl; by rewrite IH.
Qed.

(** A document that holds no separator is returned as it is. *)
Lemma nest_properties_separator_free limit : forall separator d,
  separator <> "" ->
  well_formed (VDict d) ->
  separator_free separator (VDict d) ->
  nested_within limit (VDict d) ->
  nest_properties limit separator d = Returns d.
Proof.
  induction limit as [|limit IH]; intros separator d Hsep Hwf Hfree Hdepth.
  - inversion Hdepth.
  - inversion_clear Hwf as [| | |? Hnd Hwfs].
    inversion_clear Hfree as [| | |? Hfrees].
    inversion_clear Hdepth as [| | |? ? Hdepths].
    simpl. unfold dict_items.
    rewrite nest_items_separator_free; [simpl | done | | done].
    2: { eapply Forall_impl; [exact Hfrees|]. by intros ? [? _]. }
    apply nest_values_id. apply Forall_forall. intros [key val] Hin. simpl.
    rewrite Forall_forall in Hwfs, Hfrees, Hdepths.
    specialize (Hwfs _ Hin). specialize (Hfrees _ Hin) as [_ Hfree].
    specialize (Hdepths _ Hin). simpl in *.
    destruct val; try done. by apply IH.
Qed.

(** What the first loop keeps: distinct keys that hold no separator. *)
Lemma nest_item_keys separator out item out' :
  separator <> "" ->
  nest_item separator out item = Returns out' ->
  NoDup (dict_keys out) ->
  Forall (fun key => PyStr.partition separator key = None) (dict_keys out) ->
  NoDup (dict_keys out')
  /\ Forall (fun key => PyStr.partition separator key = None) (dict_keys out').
Proof.
  intros Hsep Hitem Hnd Hfree. destruct item as [key val].
  unfold nest_item, split_section in Hitem. rewrite decide_False in Hitem by done.
  assert (Hset : forall section v,
             PyStr.partition separator section = None ->
             NoDup (dict_keys (dict_set out section v))
             /\ Forall (fun key => PyStr.partition separator key = None)
                       (dict_keys (dict_set out section v))).
  { intros section v Hsection. split; [by apply dict_keys_set_NoDup|].
    apply Forall_forall. intros k Hk. apply elem_of_dict_keys_set in Hk as [->|Hk]; [done|].
    rewrite Forall_forall in Hfree. by apply Hfree. }
  destruct (PyStr.partition separator key) as [[section sub_key]|] eqn:Hcut; simpl in Hitem.
  - apply partition_section_free in Hcut; [|done].
    destruct (dict_get out section) as [[| | |items]|];
      try discriminate; injection Hitem as <-; by apply Hset.
  - injection Hitem as <-. by apply Hset.
Qed.

Lemma nest_items_keys separator items : forall out out',
  separator <> "" ->
  nest_items separator out items = Returns out' ->
  NoDup (dict_keys out) ->
  Forall (fun key => PyStr.partition separator key = None) (dict_keys out) ->
  NoDup (dict_keys out')
  /\ Forall (fun key => PyStr.partition separator key = None) (dict_keys out').
Proof.
  induction items as [|item items IH]; intros out out' Hsep Hitems Hnd Hfree;
    simpl in Hitems.
  - by injection Hitems as <-.
  - apply computation_bind_Returns in Hitems as (out1 & Hitem & Hitems).
    destruct (nest_item_keys _ _ _ _ Hsep Hitem Hnd Hfree) as [Hnd1 Hfree1].
    by eapply IH.
Qed.

(** The second loop keeps the keys and replaces the dicts. *)
Lemma nest_values_Returns nested out out' :
  nest_values nested out = Returns out' ->
  Forall2 (fun item item' =>
             fst item' = fst item
             /\ match snd item with
                | VDict items =>
                    exists items', nested items = Returns items'
                                   /\ snd item' = VDict items'
                | other => snd item' = other
                end) out out'.
Proof.
  revert out'. induction out as [|[key val] out IH]; intros out' Hvals; simpl in Hvals.
  - injection Hvals as <-. constructor.
  - apply computation_bind_Returns in Hvals as (val' & Hval & Hvals).
    apply computation_bind_Returns in Hvals as (rest' & Hrest & Hvals).
    injection Hvals as <-. constructor; [|by apply IH].
    simpl. split; [done|].
    destruct val; try (by injection Hval as <-).
    apply computation_bind_Returns in Hval as (items' & Hitems & Hval).
    injection Hval as <-. eauto.
Qed.

Lemma nest_items_empty_separator items out out' :
  nest_items "" out items = Returns out' -> items = [] /\ out' = out.
Proof.
  destruct items as [|[key val] items]; simpl.
  - by intros [= <-].
  - unfold split_section. simpl. discriminate.
Qed.

(** What every result looks like. *)
Lemma nest_properties_result limit : forall separator d out,
  nest_properties limit separator d = Returns out ->
  well_formed (VDict out)
  /\ separator_free separator (VDict out)
  /\ nested_within limit (VDict out).
Proof.
  induction limit as [|limit IH]; intros separator d out Hnest; simpl in Hnest;
    [discriminate|].
  apply computation_bind_Returns in Hnest as (out1 & Hitems & Hvalues).
  unfold dict_items in *.
  assert (Hkeys : NoDup (dict_keys out1)
                  /\ Forall (fun key => PyStr.partition separator key = None)
                            (dict_keys out1)).
  { destruct (decide (separator = "")) as [->|Hsep].
    - apply nest_items_empty_separator in Hitems as [_ ->].
      split; [constructor | constructor].
    - eapply nest_items_keys; [done | exact Hitems | constructor | constructor]. }
  destruct Hkeys as [Hnd Hfree].
  apply nest_values_Returns in Hvalues.
  assert (Hsame : dict_keys out = dict_keys out1).
  { unfold dict_keys. clear -Hvalues.
    induction Hvalues as [|? ? ? ? [Hk _] _ IH]; [done|].
    rewrite !fmap_cons. by rewrite Hk, IH. }
  assert (Hall : Forall (fun item => well_formed (snd item)
                                     /\ separator_free separator (snd item)
                                     /\ nested_within limit (snd item)) out).
  { clear -Hvalues IH. induction Hvalues as [|[k v] [k' v'] ? ? [_ Hv] _ IHv];
      constructor; [|done].
    simpl in *. destruct v; try (subst v'; split_and!; constructor).
    destruct Hv as (items' & Hnested & ->). by apply IH in Hnested. }
  split_and!; constructor.
  - by rewrite <- Hsame in Hnd.
  - eapply Forall_impl; [exact Hall|]. by intros ? (? & _).
  - rewrite <- Hsame in Hfree. unfold dict_keys in Hfree.
    rewrite Forall_fmap in Hfree. rewrite Forall_forall in Hfree, Hall |- *.
    intros item Hin. split; [by apply Hfree | by apply Hall].
  - eapply Forall_impl; [exact Hall|]. by intros ? (_ & _ & ?).
Qed.

(** Closing a decidable goal on closed terms by evaluation. *)
Ltac by_evaluation := apply (bool_decide_unpack _); vm_compute; exact I.

(** X1: a well-formed document none of whose keys, at any depth, holds the
    separator is returned unchanged, once the stack allows as many nested
    calls as the document is deep. *)
Theorem nest_properties_identity limit separator d :
  separator <> "" ->
  well_formed (VDict d) ->
  separator_free separator (VDict d) ->
  nested_within limit (VDict d) ->
  nest_properties limit separator d = Returns d.
Proof. apply nest_properties_separator_free. Qed.

Lemma nest_properties_identity_witness :
  (":" <> "" /\ well_formed (VDict Docs.nested_stac)
   /\ separator_free ":" (VDict Docs.nested_stac)
   /\ nested_within 2 (VDict Docs.nested_stac))
  /\ nest_properties 2 ":" Docs.nested_stac = Returns Docs.nested_stac.
Proof.
  assert (Hwf : well_formed (VDict Docs.nested_stac)).
  { constructor; [by_evaluation|].
    repeat (constructor; try by_evaluation). }
  assert (Hfree : separator_free ":" (VDict Docs.nested_stac)).
  { repeat constructor. }
  assert (Hdepth : nested_within 2 (VDict Docs.nested_stac)).
  { repeat constructor. }
  split; [by split_and!|].
  by apply (nest_properties_identity 2 ":" Docs.nested_stac).
Defined.

(** X2: whatever document goes in, a document that comes out is a dict
    with distinct keys at every depth, none of which holds the separator,
    nested no deeper than the calls that were allowed. *)
Theorem nest_properties_output limit separator d out :
  nest_properties limit separator d = Returns out ->
  well_formed (VDict out)
  /\ separator_free separator (VDict out)
  /\ nested_within limit (VDict out).
Proof. apply nest_properties_result. Qed.

Lemma nest_properties_output_witness :
  nest_properties 2 ":" Docs.stac = Returns Docs.nested_stac
  /\ well_formed (VDict Docs.nested_stac)
  /\ separator_free ":" (VDict Docs.nested_stac)
  /\ nested_within 2 (VDict Docs.nested_stac).
Proof.
  split; [reflexivity|].
  exact (nest_properties_output 2 ":" Docs.stac Docs.nested_stac eq_refl).
Defined.

(** X3: nesting is idempotent: a result that is nested again, with the
    same separator and stack, comes back unchanged. *)
Theorem nest_properties_idempotent limit separator d out :
  nest_properties limit separator d = Returns out ->
  nest_properties limit separator out = Returns out.
Proof.
  intros Hnest.
  destruct (nest_properties_result _ _ _ _ Hnest) as (Hwf & Hfree & Hdepth).
  destruct (decide (separator = "")) as [->|Hsep].
  - destruct limit as [|limit]; [discriminate|]. simpl in Hnest.
    apply computation_bind_Returns in Hnest as (out1 & Hitems & Hvalues).
    apply nest_items_empty_separator in Hitems as [_ ->].
    simpl in Hvalues. by injection Hvalues as <-.
  - by apply nest_properties_separator_free.
Qed.

Lemma nest_properties_idempotent_witness :
  nest_properties 2 ":" Docs.stac = Returns Docs.nested_stac
  /\ nest_properties 2 ":" Docs.nested_stac = Returns Docs.nested_stac.
Proof.
  split; [reflexivity|].
  exact (nest_properties_idempotent 2 ":" Docs.stac Docs.nested_stac eq_refl).
Defined.

Lemma nest_items_app separator items1 items2 : forall out,
  nest_items separator out (items1 ++ items2)
  = nest_items separator out items1
      ≫= fun out1 => nest_items separator out1 items2.
Proof.
  induction items1 as [|item items1 IH]; intros out; simpl; [done|].
  destruct (nest_item separator out item); simpl; [apply IH | done].
Qed.

(** With a separator, the first loop fails only with a [TypeError]. *)
Lemma nest_item_Raises separator out item err :
  separator <> "" ->
  nest_item separator out item = Raises err ->
  exists msg, err = Builtin (TypeError msg).
Proof.
  intros Hsep. destruct item as [key val]. unfold nest_item, split_section.
  rewrite decide_False by done.
  destruct (PyStr.partition separator key) as [[section sub_key]|]; simpl; [|done].
  destruct (dict_get out section) as [[| | |items]|]; try done; intros [= <-]; eauto.
Qed.

Lemma nest_items_Raises separator items : forall out err,
  separator <> "" ->
  nest_items separator out items = Raises err ->
  exists msg, err = Builtin (TypeError msg).
Proof.
  induction items as [|item items IH]; intros out err Hsep; simpl; [done|].
  intros Hraise. apply computation_bind_Raises in Hraise as [Hraise|(out1 & _ & Hraise)].
  - by eapply nest_item_Raises.
  - by eapply IH.
Qed.

(** A scalar stored under a key stays there while other keys are read,
    unless reading one of them fails. *)
Lemma nest_item_keeps_scalar separator out item key val :
  separator <> "" ->
  dict_get out key = Some val -> is_dict val = false -> fst item <> key ->
  (exists msg, nest_item separator out item = Raises (Builtin (TypeError msg)))
  \/ (exists out', nest_item separator out item = Returns out'
                   /\ dict_get out' key = Some val).
Proof.
  intros Hsep Hget Hscalar Hne. destruct item as [key' val']. simpl in Hne.
  unfold nest_item, split_section. rewrite decide_False by done.
  destruct (PyStr.partition separator key') as [[section sub_key]|]; simpl.
  - destruct (decide (section = key)) as [->|Hsection].
    + rewrite Hget. left. destruct val; try done; eauto.
    + destruct (dict_get out section) as [[| | |items]|]; eauto;
        right; eexists; (split; [reflexivity|]); by rewrite dict_get_set_ne.
  - right. eexists. split; [reflexivity|]. by rewrite dict_get_set_ne.
Qed.

Lemma nest_items_keeps_scalar separator items : forall out key val,
  separator <> "" ->
  dict_get out key = Some val -> is_dict val = false ->
  key ∉ dict_keys items ->
  (exists msg, nest_items separator out items = Raises (Builtin (TypeError msg)))
  \/ (exists out', nest_items separator out items = Returns out'
                   /\ dict_get out' key = Some val).
Proof.
  induction items as [|item items IH]; intros out key val Hsep Hget Hscalar Hnotin; simpl.
  - eauto.
  - unfold dict_keys in Hnotin. rewrite fmap_cons, not_elem_of_cons in Hnotin.
    destruct Hnotin as [Hne Hnotin].
    destruct (nest_item_keeps_scalar separator out item key val)
      as [[msg ->]|(out1 & -> & Hget1)]; simpl; eauto.
Qed.

Lemma nest_item_bare separator out key val :
  separator <> "" -> PyStr.partition separator key = None ->
  nest_item separator out (key, val) = Returns (dict_set out key val).
Proof. intros Hsep Hfree. unfold nest_item. by rewrite split_section_free. Qed.

Lemma nest_values_scalar nested out out' key val :
  nest_values nested out = Returns out' ->
  dict_get out key = Some val -> is_dict val = false ->
  dict_get out' key = Some val.
Proof.
  intros Hvalues. apply nest_values_Returns in Hvalues.
  induction Hvalues as [|[k v] [k' v'] out out' [Hk Hv] _ IH]; simpl; [done|].
  simpl in Hk, Hv. subst k'. destruct (decide (k = key)) as [->|Hne]; [|done].
  intros [= ->] Hscalar. destruct val; try done; by subst v'.
Qed.

(** X4: a scalar stored under a key that holds no separator is found
    under that key in every result, whatever else the document holds. *)
Theorem nest_properties_keeps_scalar limit separator d out key val :
  nest_properties limit separator d = Returns out ->
  NoDup (dict_keys d) ->
  (key, val) ∈ d ->
  is_dict val = false ->
  PyStr.partition separator key = None ->
  dict_get out key = Some val.
Proof.
  intros Hnest Hnd Hin Hscalar Hfree.
  destruct limit as [|limit]; [discriminate|]. simpl in Hnest.
  apply computation_bind_Returns in Hnest as (out1 & Hitems & Hvalues).
  unfold dict_items in *.
  assert (Hsep : separator <> "").
  { intros ->. apply nest_items_empty_separator in Hitems as [-> _].
    by apply elem_of_nil in Hin. }
  apply list_elem_of_split in Hin as (before & after & ->).
  rewrite nest_items_app in Hitems.
  apply computation_bind_Returns in Hitems as (out0 & _ & Hitems).
  cbn [nest_items] in Hitems. rewrite nest_item_bare in Hitems by done.
  simpl in Hitems.
  unfold dict_keys in Hnd. rewrite fmap_app, fmap_cons in Hnd.
  apply NoDup_app in Hnd as (_ & _ & Hnd). apply NoDup_cons in Hnd as [Hfresh _].
  destruct (nest_items_keeps_scalar separator after (dict_set out0 key val) key val)
    as [[msg Hraise]|(out' & Hout' & Hget)]; try done.
  - apply dict_get_set_eq.
  - congruence.
  - rewrite Hitems in Hout'. injection Hout' as <-.
    by eapply nest_values_scalar.
Qed.

Lemma nest_properties_keeps_scalar_witness :
  nest_properties 2 ":" [("a:b", VInt 1); ("a", VInt 2)] = Returns [("a", VInt 2)]
  /\ dict_get [("a", VInt 2)] "a" = Some (VInt 2).
Proof.
  split; [reflexivity|].
  apply (nest_properties_keeps_scalar 2 ":" [("a:b", VInt 1); ("a", VInt 2)]);
    [reflexivity | | | reflexivity | reflexivity].
  - by_evaluation.
  - right. left.
Defined.

(** X5: a scalar stored under a key, followed later by a key whose first
    section is that key, makes the call fail with a [TypeError]. *)
Theorem nest_properties_scalar_then_section
    limit separator d before between after key val key2 val2 sub_key :
  separator <> "" ->
  NoDup (dict_keys d) ->
  d = before ++ (key, val) :: between ++ (key2, val2) :: after ->
  is_dict val = false ->
  PyStr.partition separator key = None ->
  PyStr.partition separator key2 = Some (key, sub_key) ->
  exists msg,
    nest_properties (S limit) separator d = Raises (Builtin (TypeError msg)).
Proof.
  intros Hsep Hnd -> Hscalar Hfree Hcut. simpl. unfold dict_items.
  assert (Hitems : exists msg,
             nest_items separator [] (before ++ (key, val) :: between ++ (key2, val2) :: after)
             = Raises (Builtin (TypeError msg))).
  { rewrite nest_items_app.
    destruct (nest_items separator [] before) as [out0|err] eqn:Hbefore;
      cbn [mbind computation_bind].
    2: { apply nest_items_Raises in Hbefore as [msg ->]; eauto. }
    cbn [nest_items]. rewrite nest_item_bare by done.
    cbn [mbind computation_bind]. rewrite nest_items_app.
    unfold dict_keys in Hnd. rewrite fmap_app, fmap_cons, fmap_app in Hnd.
    apply NoDup_app in Hnd as (_ & _ & Hnd). apply NoDup_cons in Hnd as [Hfresh _].
    rewrite not_elem_of_app in Hfresh. destruct Hfresh as [Hfresh _].
    destruct (nest_items_keeps_scalar separator between (dict_set out0 key val) key val)
      as [[msg ->]|(out1 & -> & Hget)]; cbn [mbind computation_bind];
      eauto using dict_get_set_eq.
    cbn [nest_items]. unfold nest_item.
    rewrite (split_section_Some _ _ _ _ Hsep Hcut). cbn [mbind computation_bind].
    rewrite Hget. destruct val; try done; simpl; eauto. }
  destruct Hitems as [msg ->]. simpl. eauto.
Qed.

Lemma nest_properties_scalar_then_section_witness :
  (":" <> "" /\ NoDup (dict_keys [("a", VInt 1); ("b", VInt 0); ("a:b", VInt 2)]))
  /\ exists msg,
      nest_properties 1 ":" [("a", VInt 1); ("b", VInt 0); ("a:b", VInt 2)]
      = Raises (Builtin (TypeError msg)).
Proof.
  assert (Hnd : NoDup (dict_keys [("a", VInt 1); ("b", VInt 0); ("a:b", VInt 2)])).
  { by_evaluation. }
  split; [by split|].
  by apply (nest_properties_scalar_then_section 0 ":" _ [] [("b", VInt 0)] []
              "a" (VInt 1) "a:b" (VInt 2) "b").
Defined.

(** *** Flat documents *)

Lemma string_length_app a b :
  String.length (a +:+ b) = String.length a + String.length b.
Proof. induction a as [|ch a IH]; [done|]. rewrite app_String. simpl. by rewrite IH. Qed.

Lemma path_of_not_nil separator key path : path_of separator key path -> path <> [].
Proof. by destruct 1. Qed.

(** Every key has a path. *)
Lemma path_of_exists separator :
  separator <> "" -> forall key, exists path, path_of separator key path.
Proof.
  intros Hsep key.
  remember (String.length key) as n eqn:Hn. revert key Hn.
  induction n as [n IH] using lt_wf_ind. intros key ->.
  destruct (PyStr.partition separator key) as [[section sub_key]|] eqn:Hcut.
  - destruct (IH (String.length sub_key)) with (key := sub_key) as [path Hpath]; [|done|].
    + apply partition_Some in Hcut. rewrite Hcut, !string_length_app.
      destruct separator; [done|]. simpl. lia.
    + exists (section :: path). by eapply path_section.
  - exists [key]. by constructor.
Qed.

Lemma partition_inj separator key1 key2 section sub_key :
  PyStr.partition separator key1 = Some (section, sub_key) ->
  PyStr.partition separator key2 = Some (section, sub_key) ->
  key1 = key2.
Proof. intros H1%partition_Some H2%partition_Some. congruence. Qed.

Lemma elem_of_dict_set {K V : Type} `{EqDecision K} (dm : dict K V) k0 v0 k v :
  (k, v) ∈ dict_set dm k0 v0 -> (k = k0 /\ v = v0) \/ (k, v) ∈ dm.
Proof.
  induction dm as [|[k' v'] dm IH]; simpl.
  - intros Hin. apply list_elem_of_singleton in Hin as [= -> ->]. auto.
  - destruct (decide (k' = k0)) as [->|Hne]; intros Hin;
      apply elem_of_cons in Hin as [[= -> ->]|Hin]; auto.
    + right. by right.
    + right. left.
    + destruct (IH Hin) as [?|?]; auto. right. by right.
Qed.

Lemma dict_set_not_nil {K V : Type} `{EqDecision K} (dm : dict K V) k v :
  dict_set dm k v <> [].
Proof. destruct dm as [|[k' v'] dm]; simpl; [done|]. by case_decide. Qed.

(** In a prefix-free document no bare key is the first section of another
    key. *)
Lemma prefix_free_sections separator d key key2 sub_key :
  separator <> "" -> prefix_free separator d ->
  key ∈ dict_keys d -> key2 ∈ dict_keys d ->
  PyStr.partition separator key = None ->
  PyStr.partition separator key2 = Some (key, sub_key) -> False.
Proof.
  intros Hsep Hfree Hkey Hkey2 Hbare Hcut.
  destruct (path_of_exists separator Hsep sub_key) as [path Hpath].
  assert (key = key2) as <-.
  { apply (Hfree key key2 [key] (key :: path)); try done.
    - by constructor.
    - by eapply path_section.
    - by exists path. }
  congruence.
Qed.

(** What the first loop makes of a flat, prefix-free document: every bare
    key holds its scalar, every other key's value sits under its sub-key
    in the dict of its first section, and those dicts hold nothing else. *)
Lemma nest_items_flat separator d :
  separator <> "" -> flat d -> NoDup (dict_keys d) -> prefix_free separator d ->
  exists out,
    nest_items separator [] d = Returns out
    /\ (forall key val, (key, val) ∈ d -> PyStr.partition separator key = None ->
          dict_get out key = Some val)
    /\ (forall key val section sub_key,
          (key, val) ∈ d -> PyStr.partition separator key = Some (section, sub_key) ->
          exists items, dict_get out section = Some (VDict items)
                        /\ dict_get items sub_key = Some val)
    /\ (forall section items,
          dict_get out section = Some (VDict items) ->
          items <> [] /\ NoDup (dict_keys items)
          /\ forall sub_key val, (sub_key, val) ∈ items ->
               exists key, (key, val) ∈ d
                           /\ PyStr.partition separator key = Some (section, sub_key))
    /\ (forall key val, dict_get out key = Some val -> is_dict val = false ->
          (key, val) ∈ d /\ PyStr.partition separator key = None).
Proof.
  intros Hsep. induction d as [|[key val] d IH] using rev_ind; intros Hflat Hnd Hfree.
  { exists []. split; [done|]. split_and!; try done.
    - intros ? ? Hin. by apply elem_of_nil in Hin.
    - intros ? ? ? ? Hin. by apply elem_of_nil in Hin. }
  assert (Hflat' : flat d) by (by apply Forall_app in Hflat as [? _]).
  assert (Hscalar : is_dict val = false).
  { unfold flat in Hflat. apply Forall_app in Hflat as [_ Hval].
    by inversion Hval. }
  assert (Hkeys : dict_keys (d ++ [(key, val)]) = dict_keys d ++ [key]).
  { unfold dict_keys. by rewrite fmap_app. }
  rewrite Hkeys in Hnd.
  assert (Hnd' : NoDup (dict_keys d)) by (by apply NoDup_app in Hnd as (? & _)).
  assert (Hfresh : key ∉ dict_keys d).
  { apply NoDup_app in Hnd as (_ & Hdisj & _). intros Hin.
    apply (Hdisj key Hin). left. }
  assert (Hsub : forall k, k ∈ dict_keys d -> k ∈ dict_keys (d ++ [(key, val)])).
  { intros k Hk. rewrite Hkeys, elem_of_app. auto. }
  assert (Hlast : key ∈ dict_keys (d ++ [(key, val)])).
  { rewrite Hkeys, elem_of_app, list_elem_of_singleton. auto. }
  assert (Hfree' : prefix_free separator d).
  { intros k1 k2 p1 p2 Hk1 Hk2. apply Hfree; by apply Hsub. }
  assert (Hkey_of : forall k v, (k, v) ∈ d -> k ∈ dict_keys d).
  { intros k v Hin. apply list_elem_of_fmap. by exists (k, v). }
  destruct (IH Hflat' Hnd' Hfree') as (out & Hout & HA & HB & HC & HD).
  rewrite nest_items_app, Hout. cbn [mbind computation_bind nest_items].
  destruct (PyStr.partition separator key) as [[section sub_key]|] eqn:Hcut.
  - (* a key with sections *)
    unfold nest_item. rewrite (split_section_Some _ _ _ _ Hsep Hcut).
    cbn [mbind computation_bind].
    assert (Hnot_bare : forall k v, (k, v) ∈ d ->
               PyStr.partition separator k = None -> k <> section).
    { intros k v Hin Hbare ->.
      eapply (prefix_free_sections separator (d ++ [(key, val)]) section key);
        eauto. }
    set (items' := match dict_get out section with
                   | Some (VDict items) => dict_set items sub_key val
                   | _ => [(sub_key, val)]
                   end).
    assert (Hstep : match dict_get out section with
                    | None => Returns (dict_set out section (VDict [(sub_key, val)]))
                    | Some (VDict items) =>
                        Returns (dict_set out section (VDict (dict_set items sub_key val)))
                    | Some other =>
                        Raises (Builtin (TypeError ("'" +:+ type_name other
                                  +:+ "' object does not support item assignment")))
                    end = Returns (dict_set out section (VDict items'))).
    { unfold items'. destruct (dict_get out section) as [other|] eqn:Hget; [|done].
      destruct other; try done;
        exfalso; destruct (HD _ _ Hget eq_refl) as [Hin Hbare];
        by apply (Hnot_bare _ _ Hin Hbare). }
    rewrite Hstep. cbn [mbind computation_bind].
    exists (dict_set out section (VDict items')). split; [done|]. split_and!.
    + intros k v Hin Hbare. apply elem_of_app in Hin as [Hin|Hin].
      * rewrite dict_get_set_ne; [by apply HA | by apply not_eq_sym, (Hnot_bare k v)].
      * apply list_elem_of_singleton in Hin as [= -> ->]. congruence.
    + intros k v s sk Hin Hk. apply elem_of_app in Hin as [Hin|Hin].
      * destruct (HB _ _ _ _ Hin Hk) as (items & Hget & Hsk).
        destruct (decide (s = section)) as [->|Hne].
        -- exists items'. rewrite dict_get_set_eq. split; [done|].
           unfold items'. rewrite Hget. rewrite dict_get_set_ne; [done|].
           intros ->. apply Hfresh.
           rewrite (partition_inj _ _ _ _ _ Hcut Hk). by eapply Hkey_of.
        -- exists items. by rewrite dict_get_set_ne.
      * apply list_elem_of_singleton in Hin as [= -> ->].
        rewrite Hcut in Hk. injection Hk as <- <-.
        exists items'. rewrite dict_get_set_eq. split; [done|].
        unfold items'. destruct (dict_get out section) as [[| | |items]|]; simpl;
          try (by rewrite decide_True); apply dict_get_set_eq.
    + intros s items Hget. destruct (decide (s = section)) as [->|Hne].
      * rewrite dict_get_set_eq in Hget. injection Hget as <-.
        unfold items'. destruct (dict_get out section) as [other|] eqn:Hsection.
        2: { split_and!; [done | apply NoDup_singleton |].
             intros sk v Hin. apply list_elem_of_singleton in Hin as [= -> ->].
             exists key. split; [|done]. rewrite elem_of_app, list_elem_of_singleton. auto. }
        destruct other as [| | |items].
        1-3: split_and!; [done | apply NoDup_singleton |];
             intros sk v Hin; apply list_elem_of_singleton in Hin as [= -> ->];
             exists key; split; [|done];
             rewrite elem_of_app, list_elem_of_singleton; auto.
        destruct (HC _ _ Hsection) as (_ & Hnd_items & Hitems).
        split_and!; [apply dict_set_not_nil | by apply dict_keys_set_NoDup |].
        intros sk v Hin. apply elem_of_dict_set in Hin as [[-> ->]|Hin].
        -- exists key. split; [|done]. rewrite elem_of_app, list_elem_of_singleton. auto.
        -- destruct (Hitems _ _ Hin) as (k & Hk & Hkcut). exists k.
           split; [|done]. rewrite elem_of_app. auto.
      * rewrite dict_get_set_ne in Hget by done.
        destruct (HC _ _ Hget) as (Hne_items & Hnd_items & Hitems).
        split_and!; try done. intros sk v Hin.
        destruct (Hitems _ _ Hin) as (k & Hk & Hkcut). exists k.
        split; [|done]. rewrite elem_of_app. auto.
    + intros k v Hget Hv. destruct (decide (k = section)) as [->|Hne].
      * rewrite dict_get_set_eq in Hget. by injection Hget as <-.
      * rewrite dict_get_set_ne in Hget by done.
        destruct (HD _ _ Hget Hv) as [Hin Hbare]. split; [|done].
        rewrite elem_of_app. auto.
  - (* a bare key *)
    rewrite nest_item_bare by done. cbn [mbind computation_bind].
    assert (Hno_section : forall k v s sk, (k, v) ∈ d ->
               PyStr.partition separator k = Some (s, sk) -> s <> key).
    { intros k v s sk Hin Hk ->.
      eapply (prefix_free_sections separator (d ++ [(key, val)]) key k); eauto. }
    exists (dict_set out key val). split; [done|]. split_and!.
    + intros k v Hin Hbare. apply elem_of_app in Hin as [Hin|Hin].
      * rewrite dict_get_set_ne; [by apply HA|].
        intros <-. apply Hfresh. by eapply Hkey_of.
      * apply list_elem_of_singleton in Hin as [= -> ->]. apply dict_get_set_eq.
    + intros k v s sk Hin Hk. apply elem_of_app in Hin as [Hin|Hin].
      * destruct (HB _ _ _ _ Hin Hk) as (items & Hget & Hsk).
        exists items. rewrite dict_get_set_ne; [done|].
        apply not_eq_sym. by eapply Hno_section.
      * apply list_elem_of_singleton in Hin as [= -> ->]. congruence.
    + intros s items Hget. destruct (decide (s = key)) as [->|Hne].
      * rewrite dict_get_set_eq in Hget. injection Hget as ->. done.
      * rewrite dict_get_set_ne in Hget by done.
        destruct (HC _ _ Hget) as (Hne_items & Hnd_items & Hitems).
        split_and!; try done. intros sk v Hin.
        destruct (Hitems _ _ Hin) as (k & Hk & Hkcut). exists k.
        split; [|done]. rewrite elem_of_app. auto.
    + intros k v Hget Hv. destruct (decide (k = key)) as [->|Hne].
      * rewrite dict_get_set_eq in Hget. injection Hget as <-.
        split; [|done]. rewrite elem_of_app, list_elem_of_singleton. auto.
      * rewrite dict_get_set_ne in Hget by done.
        destruct (HD _ _ Hget Hv) as [Hin Hbare]. split; [|done].
        rewrite elem_of_app. auto.
Qed.

Lemma nest_values_succeeds nested out :
  (forall key items, (key, VDict items) ∈ out ->
     exists items', nested items = Returns items') ->
  exists out', nest_values nested out = Returns out'.
Proof.
  induction out as [|[key val] out IH]; intros Hnested; simpl; [by eexists|].
  destruct IH as [rest' ->].
  { intros k items Hin. apply (Hnested k). by right. }
  destruct val as [| | |items]; simpl; try by eexists.
  destruct (Hnested key items) as [items' ->]; [left|]. simpl. by eexists.
Qed.

Lemma nest_values_get nested out out' key val :
  nest_values nested out = Returns out' ->
  dict_get out key = Some val ->
  exists val', dict_get out' key = Some val'
               /\ match val with
                  | VDict items =>
                      exists items', nested items = Returns items' /\ val' = VDict items'
                  | other => val' = other
                  end.
Proof.
  revert out'. induction out as [|[k v] out IH]; intros out' Hvals Hget; [done|].
  simpl in Hvals.
  apply computation_bind_Returns in Hvals as (v' & Hv & Hvals).
  apply computation_bind_Returns in Hvals as (rest' & Hrest & Hvals).
  injection Hvals as <-. simpl in Hget |- *.
  destruct (decide (k = key)) as [->|Hne]; [|by apply IH].
  injection Hget as ->. exists v'. split; [done|].
  destruct val; try (by injection Hv as <-).
  apply computation_bind_Returns in Hv as (items' & Hitems & Hv).
  injection Hv as <-. eauto.
Qed.

(** X6 ([nest_properties], flat documents).  A document without dicts
    whose keys are distinct, none spelling a path that begins another
    key's path, and with at most [limit] sections per key, is nested
    without an exception, and every value is then found by following its
    key's sections down the nested dicts. *)
Theorem nest_properties_paths limit separator d :
  separator <> "" -> 0 < limit ->
  flat d -> NoDup (dict_keys d) -> prefix_free separator d ->
  sections_within separator limit d ->
  exists out,
    nest_properties limit separator d = Returns out
    /\ forall key val path,
         (key, val) ∈ d -> path_of separator key path ->
         get_path out path = Some val.
Proof.
  intros Hsep. revert d.
  induction limit as [|limit IH]; intros d Hlimit Hflat Hnd Hfree Hwithin; [lia|].
  destruct (nest_items_flat separator d Hsep Hflat Hnd Hfree)
    as (out1 & Hout1 & HA & HB & HC & HD).
  assert (Hkey_of : forall k v, (k, v) ∈ d -> k ∈ dict_keys d).
  { intros k v Hin. apply list_elem_of_fmap. by exists (k, v). }
  assert (Hsub : forall section items,
             dict_get out1 section = Some (VDict items) ->
             exists out, nest_properties limit separator items = Returns out
               /\ forall key val path, (key, val) ∈ items ->
                    path_of separator key path -> get_path out path = Some val).
  { intros section items Hget.
    destruct (HC _ _ Hget) as (Hne & Hnd_items & Hitems).
    assert (Hkeys : forall sk, sk ∈ dict_keys items ->
               exists key, key ∈ dict_keys d
                 /\ PyStr.partition separator key = Some (section, sk)).
    { intros sk Hsk. apply list_elem_of_fmap in Hsk as ([sk' v] & -> & Hin).
      destruct (Hitems _ _ Hin) as (key & Hkey & Hcut). eauto. }
    apply IH.
    - destruct items as [|[sk v] items]; [done|].
      destruct (Hkeys sk) as (key & Hkey & Hcut); [left|].
      destruct (path_of_exists separator Hsep sk) as [path Hpath].
      assert (length (section :: path) <= S limit) as Hlen.
      { apply (Hwithin key); [done|]. by eapply path_section. }
      apply path_of_not_nil in Hpath. destruct path; [done|]. simpl in Hlen. lia.
    - apply Forall_forall. intros [sk v] Hin.
      destruct (Hitems _ _ Hin) as (key & Hkey & _).
      unfold flat in Hflat. rewrite Forall_forall in Hflat. by apply (Hflat (key, v)).
    - done.
    - intros sk1 sk2 p1 p2 Hsk1 Hsk2 Hp1 Hp2 [rest ->].
      destruct (Hkeys _ Hsk1) as (key1 & Hkey1 & Hcut1).
      destruct (Hkeys _ Hsk2) as (key2 & Hkey2 & Hcut2).
      assert (key1 = key2) as <-.
      { apply (Hfree key1 key2 (section :: p1) (section :: p1 ++ rest)); try done.
        - by eapply path_section.
        - by eapply path_section.
        - by exists rest. }
      congruence.
    - intros sk path Hsk Hpath.
      destruct (Hkeys _ Hsk) as (key & Hkey & Hcut).
      assert (length (section :: path) <= S limit) as Hlen.
      { apply (Hwithin key); [done|]. by eapply path_section. }
      simpl in Hlen. lia. }
  destruct (nest_values_succeeds (nest_properties limit separator) out1) as [out Hout].
  { intros section items Hin.
    assert (dict_get out1 section = Some (VDict items)) as Hget.
    { apply elem_dict_get; [|done].
      eapply (nest_items_keys separator d [] out1); eauto; constructor. }
    destruct (Hsub _ _ Hget) as (items' & ? & _). eauto. }
  exists out. split.
  { cbn [nest_properties]. unfold dict_items. rewrite Hout1.
    cbn [mbind computation_bind]. done. }
  intros key val path Hin Hpath.
  assert (Hscalar : is_dict val = false).
  { unfold flat in Hflat. rewrite Forall_forall in Hflat. by apply (Hflat (key, val)). }
  destruct Hpath as [key Hbare|key section sub_key path Hcut Hpath].
  - destruct (nest_values_get _ _ _ _ _ Hout (HA _ _ Hin Hbare)) as (val' & Hget & Hval').
    simpl. rewrite Hget. by destruct val; subst.
  - destruct (HB _ _ _ _ Hin Hcut) as (items & Hget & Hsk).
    destruct (nest_values_get _ _ _ _ _ Hout Hget) as (val' & Hget' & items' & Hnested & ->).
    destruct (Hsub _ _ Hget) as (items'' & Hnested' & Hpaths).
    assert (items'' = items') as -> by congruence.
    pose proof (path_of_not_nil _ _ _ Hpath) as Hne.
    destruct path as [|step path]; [done|].
    change (get_path out (section :: step :: path))
      with (match dict_get out section with
            | Some (VDict items) => get_path items (step :: path)
            | _ => None
            end).
    rewrite Hget'.
    apply (Hpaths sub_key); [|done]. by apply dict_get_Some_elem.
Qed.

Ltac invert_paths :=
  repeat match goal with
         | H : PyStr.partition _ _ = _ |- _ =>
             vm_compute in H; first [discriminate H | injection H as <- <-]
         | H : path_of _ _ _ |- _ => inversion H; clear H; subst
         end.

Ltac split_keys H :=
  unfold dict_keys in H; simpl in H;
  repeat (apply elem_of_cons in H as [->|H]); [..|by apply elem_of_nil in H].

Lemma nest_properties_paths_witness :
  (":" <> "" /\ 0 < 2 /\ flat Docs.stac /\ NoDup (dict_keys Docs.stac)
   /\ prefix_free ":" Docs.stac /\ sections_within ":" 2 Docs.stac)
  /\ exists out,
      nest_properties 2 ":" Docs.stac = Returns out
      /\ forall key val path,
           (key, val) ∈ Docs.stac -> path_of ":" key path ->
           get_path out path = Some val.
Proof.
  assert (Hflat : flat Docs.stac) by (by repeat constructor).
  assert (Hnd : NoDup (dict_keys Docs.stac)) by by_evaluation.
  assert (Hfree : prefix_free ":" Docs.stac).
  { intros key1 key2 path1 path2 Hkey1 Hkey2 Hpath1 Hpath2 [rest Hrest].
    split_keys Hkey1; split_keys Hkey2; try reflexivity;
      invert_paths; by simplify_eq/=. }
  assert (Hwithin : sections_within ":" 2 Docs.stac).
  { intros key path Hkey Hpath. split_keys Hkey; invert_paths; simpl; lia. }
  split; [by split_and!; try lia|].
  apply (nest_properties_paths 2 ":" Docs.stac); (done || lia).
Defined.

(** ** [StacPropertyView] *)

Lemma dict_set_length {K V : Type} `{EqDecision K} (dm : dict K V) k v :
  length (dict_set dm k v)
  = if decide (k ∈ dict_keys dm) then length dm else S (length dm).
Proof.
  pose proof (dict_keys_set dm k v) as Hkeys.
  apply (f_equal length) in Hkeys.
  destruct (decide (k ∈ dict_keys dm)); unfold dict_keys in Hkeys;
    rewrite ?length_app, !length_fmap in Hkeys; simpl in Hkeys; lia.
Qed.

Lemma get_set_eq (_props : dict string value) key val :
  StacPropertyView.get (dict_set _props key val) key = val.
Proof. unfold StacPropertyView.get. by rewrite dict_get_set_eq. Qed.

Lemma get_set_ne (_props : dict string value) key key' val :
  key <> key' ->
  StacPropertyView.get (dict_set _props key val) key'
  = StacPropertyView.get _props key'.
Proof. intros Hne. unfold StacPropertyView.get. by rewrite dict_get_set_ne. Qed.

(** X7 ([StacPropertyView.__setitem__], [__getitem__]).  After
    [view[key] = val], [view[key]] is [val] and every other item reads as
    before: the lookup raises [KeyError] exactly where it did. *)
Theorem setitem_getitem _props key val item :
  StacPropertyView.getitem (fst (StacPropertyView.setitem _props key val)) item
  = if decide (item = key) then Returns val
    else StacPropertyView.getitem _props item.
Proof.
  unfold StacPropertyView.getitem, StacPropertyView.setitem. cbn [fst].
  case_decide as Hitem.
  - subst. by rewrite dict_get_set_eq.
  - by rewrite dict_get_set_ne.
Qed.

(** X8 ([StacPropertyView.__setitem__], [__len__]).  Setting an item
    warns exactly when the view does not grow: one warning and the same
    length for a key that is present, no warning and one more item for a
    new key. *)
Theorem setitem_warns _props key val :
  let '(_props', warnings) := StacPropertyView.setitem _props key val in
  if decide (is_Some (dict_get _props key))
  then StacPropertyView.len _props' = StacPropertyView.len _props
       /\ length warnings = 1
  else StacPropertyView.len _props' = S (StacPropertyView.len _props)
       /\ warnings = [].
Proof.
  unfold StacPropertyView.setitem, StacPropertyView.len.
  rewrite dict_set_length.
  destruct (decide (is_Some (dict_get _props key))) as [Hin|Hnotin];
    rewrite dict_get_is_Some_keys in *.
  - by rewrite !decide_True.
  - by rewrite !decide_False.
Qed.

(** X9 ([StacPropertyView.datetime_range], getter and setter).  The range
    that is set is the range that is read, no warning is issued, and
    every other property reads as before. *)
Theorem datetime_range_round_trip _props start end_ :
  let '(_props', warnings) :=
    StacPropertyView.set_datetime_range _props (start, end_) in
  StacPropertyView.datetime_range _props' = (start, end_)
  /\ warnings = []
  /\ forall item, item <> "dtr:start_datetime" -> item <> "dtr:end_datetime" ->
       StacPropertyView.getitem _props' item = StacPropertyView.getitem _props item.
Proof.
  unfold StacPropertyView.set_datetime_range, StacPropertyView.datetime_range.
  split_and!; [|done|].
  - rewrite get_set_eq, get_set_ne, get_set_eq; done.
  - intros item Hstart Hend. unfold StacPropertyView.getitem.
    by rewrite !dict_get_set_ne.
Qed.



Lemma last_char_snoc s :
  s <> "" -> exists front ch, s = front +:+ String ch "" /\ PyStr.last_char s = String ch "".
Proof.
  induction s as [|ch s IH]; [done|]. intros _.
  destruct s as [|ch' s].
  - by exists "", ch.
  - destruct IH as (front & last & Hs & Hlast); [done|].
    exists (String ch front), last. rewrite app_String, <- Hs. split; [done|].
    by rewrite <- Hlast.
Qed.

(** X11 ([StacPropertyView.platform_abbreviated]).  An abbreviation is
    only given for a platform whose name begins with "landsat"; it is
    "ls" and the last character of that name, three characters in all. *)
Theorem platform_abbreviated_Returns _props abbreviation :
  StacPropertyView.platform_abbreviated _props = Returns abbreviation ->
  exists p front ch,
    dict_get _props "eo:platform" = Some (VStr p)
    /\ Str.startswith p "landsat" = true
    /\ p = front +:+ String ch ""
    /\ abbreviation = "ls" +:+ String ch "".
Proof.
  unfold StacPropertyView.platform_abbreviated, StacPropertyView.platform,
    StacPropertyView.getitem.
  destruct (dict_get _props "eo:platform") as [[| |p|]|]; try done.
  cbn [mbind computation_bind].
  destruct (Str.startswith p "landsat") eqn:Hstarts; [|done].
  cbn [negb]. intros [= <-].
  destruct (last_char_snoc p) as (front & ch & Hp & Hlast).
  { by destruct p. }
  exists p, front, ch. by rewrite Hlast.
Qed.

Lemma platform_abbreviated_Returns_witness :
  StacPropertyView.platform_abbreviated Docs.stac = Returns "ls8"
  /\ exists p front ch,
       dict_get Docs.stac "eo:platform" = Some (VStr p)
       /\ Str.startswith p "landsat" = true
       /\ p = front +:+ String ch ""
       /\ "ls8" = "ls" +:+ String ch "".
Proof.
  split; [reflexivity|].
  apply (platform_abbreviated_Returns Docs.stac "ls8"). reflexivity.
Defined.

(** ** [_find_a_granule_name] *)

Lemma rfind_Some ch s i :
  PyStr.rfind ch s = Some i ->
  s = PyStr.take i s +:+ String ch (PyStr.drop (S i) s).
Proof.
  revert i. induction s as [|ch' s IH]; intros i; [done|]. cbn [PyStr.rfind].
  destruct (PyStr.rfind ch s) as [j|] eqn:Hfind.
  - intros [= <-]. cbn [PyStr.take PyStr.drop]. rewrite app_String. f_equal.
    by apply IH.
  - destruct (Ascii.eqb ch' ch) eqn:Heq; [|done]. intros [= <-].
    apply Ascii.eqb_eq in Heq as ->. simpl. by destruct s.
Qed.

(** The piece before the first separator is not changed by what follows
    a later separator. *)
Lemma split_hd_app sep a b :
  hd "" (Str.split sep (a +:+ String sep b)) = hd "" (Str.split sep a).
Proof.
  induction a as [|ch a IH]; simpl.
  - by rewrite Ascii.eqb_refl.
  - destruct (Ascii.eqb ch sep); [done|].
    destruct (Str.split sep (a +:+ String sep b)) as [|w ws] eqn:Hsplit;
      [by apply split_not_nil in Hsplit|].
    destruct (Str.split sep a) as [|w' ws'] eqn:Hsplit';
      [by apply split_not_nil in Hsplit'|].
    simpl in *. by rewrite IH.
Qed.

Lemma stem_first_piece p :
  hd "" (Str.split "." (stem p)) = hd "" (Str.split "." (pathlib.name p)).
Proof.
  unfold stem. cbv zeta.
  destruct (PyStr.rfind "." (pathlib.name p)) as [i|] eqn:Hfind; [|done].
  destruct (_ && _); [|done].
  apply rfind_Some in Hfind. rewrite Hfind at 2. by rewrite split_hd_app.
Qed.

Lemma split_hd_startswith sep ch s :
  ch <> sep ->
  Str.startswith (hd "" (Str.split sep s)) (String ch "")
  = Str.startswith s (String ch "").
Proof.
  intros Hne. unfold Str.startswith. destruct s as [|ch' s]; [done|]. simpl.
  destruct (Ascii.eqb ch' sep) eqn:Heq.
  - apply Ascii.eqb_eq in Heq as ->. by destruct (ascii_dec ch sep).
  - destruct (Str.split sep s) as [|w ws] eqn:Hsplit;
      [by apply split_not_nil in Hsplit|].
    simpl. destruct (ascii_dec ch ch'); [|done]. by destruct w, s.
Qed.

(** The first piece of a split holds no separator, and the text is that
    piece alone or that piece, a separator and more. *)
Lemma split_hd_spec sep s :
  PyStr.partition (String sep "") (hd "" (Str.split sep s)) = None
  /\ (s = hd "" (Str.split sep s)
      \/ exists rest, s = hd "" (Str.split sep s) +:+ String sep rest).
Proof.
  induction s as [|ch s [IHfree IHs]]; [by split; [|left]|]. simpl.
  destruct (Ascii.eqb ch sep) eqn:Heq.
  - apply Ascii.eqb_eq in Heq as ->. split; [done|]. right. by exists s.
  - destruct (Str.split sep s) as [|w ws] eqn:Hsplit;
      [by apply split_not_nil in Hsplit|].
    simpl in *. split.
    + destruct (ascii_dec sep ch) as [->|]; [by rewrite Ascii.eqb_refl in Heq|].
      by rewrite IHfree.
    + destruct IHs as [->|[rest ->]]; [by left|]. right. by exists rest.
Qed.

(** X12 ([_find_a_granule_name], found).  For a file whose name begins
    with "L" the granule name is found: it holds no dot, and the file name
    is the granule name alone or the granule name, a dot and more. *)
Theorem granule_name_found wagl_hdf5 :
  Str.startswith (pathlib.name wagl_hdf5) "L" = true ->
  exists granule_name,
    _find_a_granule_name wagl_hdf5 = Returns granule_name
    /\ Str.startswith granule_name "L" = true
    /\ PyStr.partition "." granule_name = None
    /\ (pathlib.name wagl_hdf5 = granule_name
        \/ exists rest, pathlib.name wagl_hdf5 = granule_name +:+ "." +:+ rest).
Proof.
  intros Hstarts. exists (hd "" (Str.split "." (pathlib.name wagl_hdf5))).
  assert (Hpiece : Str.startswith (hd "" (Str.split "." (pathlib.name wagl_hdf5))) "L"
                   = true).
  { by rewrite split_hd_startswith. }
  split_and!; [|done|apply split_hd_spec..].
  unfold _find_a_granule_name. cbv zeta.
  replace (match Str.split "." (stem wagl_hdf5) with
           | [] => ""
           | first :: _ => first
           end) with (hd "" (Str.split "." (stem wagl_hdf5)))
    by (by destruct (Str.split "." (stem wagl_hdf5))).
  by rewrite stem_first_piece, Hpiece.
Qed.

Lemma granule_name_found_witness :
  Str.startswith (pathlib.name (pathlib.of_string "/in/LT50910841993188ASA00.wagl.h5"))
                 "L" = true
  /\ exists granule_name,
       _find_a_granule_name (pathlib.of_string "/in/LT50910841993188ASA00.wagl.h5")
       = Returns granule_name
       /\ Str.startswith granule_name "L" = true
       /\ PyStr.partition "." granule_name = None
       /\ (pathlib.name (pathlib.of_string "/in/LT50910841993188ASA00.wagl.h5")
           = granule_name
           \/ exists rest,
                pathlib.name (pathlib.of_string "/in/LT50910841993188ASA00.wagl.h5")
                = granule_name +:+ "." +:+ rest).
Proof.
  split; [reflexivity|].
  apply (granule_name_found (pathlib.of_string "/in/LT50910841993188ASA00.wagl.h5")).
  reflexivity.
Defined.

(** X13 ([_find_a_granule_name], not found).  For a file whose name does
    not begin with "L" a [ValueError] is raised, whatever follows the
    first character. *)
Theorem granule_name_missing wagl_hdf5 :
  Str.startswith (pathlib.name wagl_hdf5) "L" = false ->
  exists msg, _find_a_granule_name wagl_hdf5 = Raises (Builtin (ValueError msg)).
Proof.
  intros Hstarts. unfold _find_a_granule_name. cbv zeta.
  replace (match Str.split "." (stem wagl_hdf5) with
           | [] => ""
           | first :: _ => first
           end) with (hd "" (Str.split "." (stem wagl_hdf5)))
    by (by destruct (Str.split "." (stem wagl_hdf5))).
  rewrite stem_first_piece, split_hd_startswith, Hstarts by done.
  by eexists.
Qed.

Lemma granule_name_missing_witness :
  Str.startswith (pathlib.name (pathlib.of_string "my-test-granule.h5")) "L" = false
  /\ exists msg,
       _find_a_granule_name (pathlib.of_string "my-test-granule.h5")
       = Raises (Builtin (ValueError msg)).
Proof.
  split; [reflexivity|].
  apply (granule_name_missing (pathlib.of_string "my-test-granule.h5")). reflexivity.
Defined.

(** ** [_iter_bands_paths] *)

Lemma iter_product_contents_app before after :
  (forall name val, (name, val) ∈ before -> Str.startswith name "file_name_" = true ->
     exists filepath, val = VStr filepath) ->
  iter_product_contents (before ++ after)
  = (band_files before ++ fst (iter_product_contents after),
     snd (iter_product_contents after)).
Proof.
  induction before as [|[name val] before IH]; intros Htext.
  { simpl. by destruct (iter_product_contents after). }
  assert (IH' := IH (fun n v Hin => Htext n v (list_elem_of_further _ _ _ Hin))).
  rewrite <- app_comm_cons. cbn [iter_product_contents]. cbv zeta.
  unfold band_files. cbn [omap list_omap fst snd]. fold (band_files before).
  destruct (Str.startswith name "file_name_") eqn:Hstarts; cbn [negb andb].
  - destruct (Htext name val) as [filepath ->]; [left | done |].
    by destruct (Str.endswith filepath "TIF"); cbn [negb]; rewrite IH'.
  - rewrite IH'. by destruct val.
Qed.

Lemma elem_of_band_files items usgs_band_id filepath :
  (usgs_band_id, filepath) ∈ band_files items
  <-> ("file_name_" +:+ usgs_band_id, VStr filepath) ∈ items
      /\ Str.endswith filepath "TIF" = true.
Proof.
  unfold band_files. rewrite list_elem_of_omap. split.
  - intros ([name val] & Hin & Hitem). cbn [fst snd] in Hitem.
    destruct val as [| |text|]; try done.
    destruct (Str.startswith name "file_name_") eqn:Hstarts; [|done].
    destruct (Str.endswith text "TIF") eqn:Hends; [|done].
    injection Hitem as <- <-. split; [|done].
    apply prefix_drop in Hstarts. simpl in Hstarts |- *.
    by rewrite <- Hstarts.
  - intros [Hin Hends]. eexists. split; [done|]. cbn [fst snd].
    unfold Str.startswith. rewrite prefix_app, Hends. done.
Qed.

(** X14 ([_iter_bands_paths]).  Where every "file_name_" entry of the
    product contents holds text, the generator runs to its end, and it
    yields band [b] with file [f] exactly when the document holds the
    entry "file_name_b" with the value [f] and [f] ends in "TIF". *)
Theorem iter_bands_paths_members mtl_doc items :
  dict_get mtl_doc "product_contents" = Some (VDict items) ->
  (forall name val, (name, val) ∈ items -> Str.startswith name "file_name_" = true ->
     exists filepath, val = VStr filepath) ->
  exists yielded,
    _iter_bands_paths mtl_doc = (yielded, None)
    /\ forall usgs_band_id filepath,
         (usgs_band_id, filepath) ∈ yielded
         <-> ("file_name_" +:+ usgs_band_id, VStr filepath) ∈ items
             /\ Str.endswith filepath "TIF" = true.
Proof.
  intros Hget Htext. exists (band_files items). split.
  - unfold _iter_bands_paths, dict_items. rewrite Hget.
    rewrite <- (app_nil_r items) at 1.
    rewrite iter_product_contents_app by done. cbn. by rewrite app_nil_r.
  - apply elem_of_band_files.
Qed.

Lemma iter_bands_paths_members_witness :
  exists yielded,
    _iter_bands_paths Docs.mtl = (yielded, None)
    /\ forall usgs_band_id filepath,
         (usgs_band_id, filepath) ∈ yielded
         <-> ("file_name_" +:+ usgs_band_id, VStr filepath)
               ∈ [("landsat_product_id", VStr "LC08_L2SP_091084_20200101_20200823_02_T1");
                  ("file_name_band_1", VStr "LC08_SR_B1.TIF");
                  ("file_name_quality_l1_pixel", VStr "LC08_QA_PIXEL.TIF");
                  ("file_name_metadata_odl", VStr "LC08_MTL.txt");
                  ("collection_number", VInt 2)]
             /\ Str.endswith filepath "TIF" = true.
Proof.
  apply (iter_bands_paths_members Docs.mtl); [reflexivity|].
  intros name val Hin Hstarts.
  repeat (apply elem_of_cons in Hin as [[= -> ->]|Hin]);
    [by exists "LC08_L2SP_091084_20200101_20200823_02_T1"
    |by exists "LC08_SR_B1.TIF"
    |by exists "LC08_QA_PIXEL.TIF"
    |by exists "LC08_MTL.txt"
    |vm_compute in Hstarts; discriminate Hstarts
    |by apply elem_of_nil in Hin].
Defined.

(** X15 ([_iter_bands_paths], a value that is no text).  At the first
    "file_name_" entry whose value is not text the generator ends with an
    [AttributeError], after it has yielded the band files before that
    entry, and none after it. *)
Theorem iter_bands_paths_not_text mtl_doc before name other after :
  dict_get mtl_doc "product_contents"
  = Some (VDict (before ++ (name, other) :: after)) ->
  (forall name val, (name, val) ∈ before -> Str.startswith name "file_name_" = true ->
     exists filepath, val = VStr filepath) ->
  Str.startswith name "file_name_" = true ->
  (forall filepath, other <> VStr filepath) ->
  _iter_bands_paths mtl_doc
  = (band_files before, Some (Builtin (no_attribute other "endswith"))).
Proof.
  intros Hget Htext Hstarts Hother. unfold _iter_bands_paths, dict_items.
  rewrite Hget, iter_product_contents_app by done.
  cbn [iter_product_contents]. cbv zeta. rewrite Hstarts. cbn [negb].
  destruct other as [| |filepath|]; cbn [fst snd]; rewrite ?app_nil_r; try done.
  by destruct (Hother filepath).
Qed.

Lemma iter_bands_paths_not_text_witness :
  _iter_bands_paths
    [("product_contents",
      VDict [("file_name_band_1", VStr "B1.TIF"); ("file_name_band_2", VInt 2);
             ("file_name_band_3", VStr "B3.TIF")])]
  = ([("band_1", "B1.TIF")],
     Some (Builtin (AttributeError "'int' object has no attribute 'endswith'"))).
Proof.
  apply (iter_bands_paths_not_text _ [("file_name_band_1", VStr "B1.TIF")]
           "file_name_band_2" (VInt 2) [("file_name_band_3", VStr "B3.TIF")]);
    try done.
  intros name val Hin _. apply list_elem_of_singleton in Hin as [= -> ->]. by eexists.
Defined.

(** ** More on [valid_region] *)

Section RegionRuns.
Variable fs : rasterio.filesystem.
Variable cwd : string.
Variable path : pathlib.Path.
Variable mask_value : option Z.


(** The call, once the loop has run: only the naming of the groups other
    than the default one can still fail. *)
Lemma valid_region_unfold hp ms st front most last_mask last_transform :
  ms <> [] ->
  loop fs cwd path mask_value hp loop_init ms = Ok st ->
  sorted count_key (dict_items (measurements_by_grid st)) = front ++ [most] ->
  mask st = Some last_mask ->
  transform st = Some last_transform ->
  valid_region fs cwd path mask_value hp ms
  = '(hp2, others) ←
      name_grids (fold_left (fun hp m => assign_grid hp m "default") (snd most) hp)
                 front;
    Ok (hp2,
        (shapely.affine_transform
           (shapely.intersection
              (shapely.simplify
                 (shapely.buffer
                    (shapely.convex_hull
                       (shapely.unary_union_of_valid
                          ((fun mask =>
                              shapely.features_shapes (numpy.astype_uint8 mask) mask)
                             <$> dict_values (mask_by_grid st))))
                    1 3 3)
                 1)
              (shapely.box 0 0 (snd (ndshape last_mask)) (fst (ndshape last_mask))))
           (Affine.a last_transform, Affine.b last_transform,
            Affine.d last_transform, Affine.e last_transform,
            Affine.xoff last_transform, Affine.yoff last_transform),
         dict_of_pairs (("default", fst most) :: others))).
Proof.
  intros Hne Hloop Hsorted Hmask Htransform.
  unfold valid_region. rewrite decide_False by done. rewrite Hloop. simpl.
  fold count_key. rewrite Hsorted, last_snoc, removelast_last.
  destruct (name_grids _ front) as [[hp2 others]|exc]; simpl; [|done].
  by rewrite Hmask, Htransform.
Qed.




End RegionRuns.

(** The groups that are named hold measurements of the collection
    only. *)
Lemma sorted_groups_members fs cwd path mask_value hp ms st front most :
  loop fs cwd path mask_value hp loop_init ms = Ok st ->
  sorted count_key (dict_items (measurements_by_grid st)) = front ++ [most] ->
  forall gm, gm ∈ front ++ [most] ->
    snd gm <> [] /\ snd gm = members_of fs cwd path hp ms (fst gm).
Proof.
  intros Hloop Hsorted [grid members] Hgm.
  pose proof (loop_invariant_loop fs cwd path mask_value hp ms [] _ _
                (loop_invariant_init fs cwd path mask_value hp) Hloop) as Hinv.
  simpl in Hinv. apply groups_of_invariant in Hinv as (_ & Hgroups & _).
  apply Hgroups. by rewrite <- (sorted_Permutation count_key), Hsorted.
Qed.

Lemma members_of_subseteq fs cwd path hp ms grid m :
  m ∈ members_of fs cwd path hp ms grid ->
  m ∈ ms /\ grid_of fs cwd path hp m = Some grid.
Proof. unfold members_of. rewrite list_elem_of_filter. tauto. Qed.



Lemma set_grid_set_grid m a b :
  MeasurementDoc.set_grid (MeasurementDoc.set_grid m a) b = MeasurementDoc.set_grid m b.
Proof. done. Qed.

Lemma assign_all_frame name members : forall hp r,
  fold_left (fun hp m => assign_grid hp m name) members hp r
  = MeasurementDoc.set_grid (hp r)
      (MeasurementDoc.grid (fold_left (fun hp m => assign_grid hp m name) members hp r)).
Proof.
  induction members as [|m members IH]; intros hp r; simpl.
  - by destruct (hp r).
  - rewrite (IH (assign_grid hp m name) r) at 1.
    generalize (MeasurementDoc.grid
                  (fold_left (fun hp m => assign_grid hp m name) members
                             (assign_grid hp m name) r)).
    intros g. unfold assign_grid. by case_decide.
Qed.

Lemma name_grids_frame gs : forall hp hp1 named,
  name_grids hp gs = Ok (hp1, named) ->
  forall r, hp1 r = MeasurementDoc.set_grid (hp r) (MeasurementDoc.grid (hp1 r)).
Proof.
  induction gs as [|g gs IH]; intros hp hp1 named Hgs r; simpl in Hgs.
  - injection Hgs as <- <-. by destruct (hp r).
  - inv_bind Hgs. destruct a as [hp0 named0]. simpl in Hgs.
    inv_bind Hgs. destruct a as [hp0' rest]. simpl in Hgs.
    injection Hgs as <- <-.
    rewrite (IH _ _ _ Ha0 r) at 1.
    unfold name_grid in Ha. inv_bind Ha. injection Ha as <- <-.
    rewrite assign_all_frame. by rewrite set_grid_set_grid.
Qed.

(** Only the [grid] field is assigned, and only of the measurements of the
    collection. *)
Lemma valid_region_writes fs cwd path mask_value hp ms hp' out :
  valid_region fs cwd path mask_value hp ms = Ok (hp', out) ->
  forall r,
    hp' r = MeasurementDoc.set_grid (hp r) (MeasurementDoc.grid (hp' r))
    /\ (r ∉ ms -> hp' r = hp r).
Proof.
  destruct out as [geom grids]. intros Hvr r.
  apply valid_region_Ok in Hvr
    as (st & front & most & hp1 & lm & lt & Hne & Hloop & Hsorted & Hdef & Hothers & _).
  assert (Hframe : hp' r = MeasurementDoc.set_grid (hp r) (MeasurementDoc.grid (hp' r))).
  { rewrite (name_grids_frame _ _ _ _ Hothers r) at 1.
    unfold name_grid in Hdef. simpl in Hdef. injection Hdef as <-.
    by rewrite assign_all_frame, set_grid_set_grid. }
  split; [done|]. intros Hr. rewrite Hframe.
  assert (Hout : forall gm, gm ∈ front ++ [most] -> r ∉ snd gm).
  { intros gm Hgm Hin.
    destruct (sorted_groups_members fs cwd path mask_value hp ms st front most
                Hloop Hsorted gm Hgm) as [_ Hmembers].
    rewrite Hmembers in Hin. by apply members_of_subseteq in Hin as [? _]. }
  apply name_grid_Ok in Hdef as (_ & _ & Hgrid1 & _).
  apply name_grids_Ok in Hothers as (_ & _ & Hkeep & _).
  rewrite Hkeep, Hgrid1.
  - rewrite decide_False; [by destruct (hp r)|].
    apply Hout. rewrite elem_of_app, list_elem_of_singleton. auto.
  - intros gm Hgm. apply Hout. rewrite elem_of_app. auto.
Qed.

(** X17 ([valid_region], what it writes).  A call assigns the [grid]
    field of the measurements it is given and nothing else: path, band,
    layer and name of every measurement stay as they were, and a
    measurement that is not in the collection is left as it was. *)
Theorem valid_region_frame fs cwd path mask_value hp ms hp' out :
  valid_region fs cwd path mask_value hp ms = Ok (hp', out) ->
  forall r,
    hp' r = MeasurementDoc.set_grid (hp r) (MeasurementDoc.grid (hp' r))
    /\ (r ∉ ms -> hp' r = hp r).
Proof. apply valid_region_writes. Qed.

Lemma valid_region_frame_witness :
  exists hp' out,
    valid_region Scene.fs Scene.cwd Scene.root None Scene.hp [0; 2] = Ok (hp', out)
    /\ forall r,
         hp' r = MeasurementDoc.set_grid (Scene.hp r) (MeasurementDoc.grid (hp' r))
         /\ (r ∉ [0; 2] -> hp' r = Scene.hp r).
Proof.
  eexists _, _. split; [reflexivity|].
  eapply (valid_region_frame Scene.fs Scene.cwd Scene.root None Scene.hp [0; 2]).
  reflexivity.
Defined.



(** *** What a call reads *)

Lemma loop_body_ext fs cwd path mask_value hp hp2 st m :
  MeasurementDoc.path (hp2 m) = MeasurementDoc.path (hp m) ->
  loop_body fs cwd path mask_value hp2 st m = loop_body fs cwd path mask_value hp st m.
Proof. intros Hpath. unfold loop_body. by rewrite Hpath. Qed.

Lemma loop_ext fs cwd path mask_value hp hp2 ms :
  (forall m, m ∈ ms -> MeasurementDoc.path (hp2 m) = MeasurementDoc.path (hp m)) ->
  forall st, loop fs cwd path mask_value hp2 st ms = loop fs cwd path mask_value hp st ms.
Proof.
  induction ms as [|m ms IH]; intros Hpath st; [done|].
  cbn [loop]. rewrite (loop_body_ext fs cwd path mask_value hp hp2) by (apply Hpath; left).
  destruct (loop_body fs cwd path mask_value hp st m) as [st'|exc]; [|done].
  simpl. apply IH. intros m' Hm'. apply Hpath. by right.
Qed.

Lemma join_names_ext hp hp2 members :
  (forall m, m ∈ members -> MeasurementDoc.name (hp2 m) = MeasurementDoc.name (hp m)) ->
  join_names hp2 members = join_names hp members.
Proof.
  intros Hname. unfold join_names.
  assert (mapM (fun m => MeasurementDoc.name (hp2 m)) members
          = mapM (fun m => MeasurementDoc.name (hp m)) members) as ->; [|done].
  induction members as [|m members IH]; [done|]. simpl.
  rewrite (Hname m) by left. rewrite IH; [done|].
  intros m' Hm'. apply Hname. by right.
Qed.

Lemma name_grids_ext gs : forall hp hp2 hp' named,
  (forall gm m, gm ∈ gs -> m ∈ snd gm ->
     MeasurementDoc.name (hp2 m) = MeasurementDoc.name (hp m)) ->
  name_grids hp gs = Ok (hp', named) ->
  exists hp2',
    name_grids hp2 gs = Ok (hp2', named)
    /\ forall r,
         (exists gm, gm ∈ gs /\ r ∈ snd gm)
         \/ MeasurementDoc.grid (hp2 r) = MeasurementDoc.grid (hp r) ->
         MeasurementDoc.grid (hp2' r) = MeasurementDoc.grid (hp' r).
Proof.
  induction gs as [|g gs IH]; intros hp hp2 hp' named Hname Hgs; simpl in Hgs.
  - injection Hgs as <- <-. exists hp2. split; [done|].
    intros r [(gm & Hgm & _)|Hr]; [by apply elem_of_nil in Hgm | done].
  - inv_bind Hgs. destruct a as [hp0 named0]. simpl in Hgs.
    inv_bind Hgs. destruct a as [hp1 rest]. simpl in Hgs.
    injection Hgs as <- <-.
    unfold name_grid in Ha. inv_bind Ha. injection Ha as <- <-.
    destruct (IH (fold_left (fun hp m => assign_grid hp m a) (snd g) hp)
                 (fold_left (fun hp m => assign_grid hp m a) (snd g) hp2) hp1 rest)
      as (hp2' & Hgs2 & Hgrid); [|done|].
    { intros gm m Hgm Hm. rewrite !assign_all_name. apply (Hname gm); [by right|done]. }
    exists hp2'. split.
    + cbn [name_grids]. unfold name_grid.
      rewrite (join_names_ext hp hp2), Ha1.
      2: { intros m Hm. apply (Hname g); [left | done]. }
      simpl. by rewrite Hgs2.
    + intros r Hr. apply Hgrid.
      destruct (decide (r ∈ snd g)) as [Hin|Hnotin].
      * right. rewrite !assign_all_grid. by rewrite !decide_True.
      * destruct Hr as [(gm & Hgm & Hr)|Hr].
        -- left. exists gm. split; [|done].
           apply elem_of_cons in Hgm as [->|Hgm]; done.
        -- right. rewrite !assign_all_grid. by rewrite !decide_False.
Qed.

(** The outcome of a call is fixed by the paths and the names of the
    measurements it is given. *)
Lemma valid_region_ext fs cwd path mask_value hp hp2 ms hp' geom grids :
  (forall m, m ∈ ms ->
     MeasurementDoc.path (hp2 m) = MeasurementDoc.path (hp m)
     /\ MeasurementDoc.name (hp2 m) = MeasurementDoc.name (hp m)) ->
  valid_region fs cwd path mask_value hp ms = Ok (hp', (geom, grids)) ->
  exists hp2',
    valid_region fs cwd path mask_value hp2 ms = Ok (hp2', (geom, grids))
    /\ forall m, m ∈ ms -> MeasurementDoc.grid (hp2' m) = MeasurementDoc.grid (hp' m).
Proof.
  intros Hsame Hvr.
  apply valid_region_Ok in Hvr
    as (st & front & most & hp1 & lm & lt & Hne & Hloop & Hsorted & Hdef & Hothers
        & -> & Hmask & Htransform & ->).
  assert (Hloop2 : loop fs cwd path mask_value hp2 loop_init ms = Ok st).
  { rewrite (loop_ext fs cwd path mask_value hp hp2); [done|].
    intros m Hm. by apply Hsame. }
  pose proof (sorted_groups_members fs cwd path mask_value hp ms st front most
                Hloop Hsorted) as Hgroups.
  pose proof (loop_invariant_loop fs cwd path mask_value hp ms [] _ _
                (loop_invariant_init fs cwd path mask_value hp) Hloop) as Hinv.
  simpl in Hinv. apply groups_of_invariant in Hinv as (_ & Hitems & Hall).
  unfold name_grid in Hdef. simpl in Hdef. injection Hdef as <-.
  edestruct (name_grids_ext front
               (fold_left (fun hp m => assign_grid hp m "default") (snd most) hp)
               (fold_left (fun hp m => assign_grid hp m "default") (snd most) hp2))
    as (hp2' & Hothers2 & Hgrid); [|exact Hothers|].
  { intros gm m Hgm Hm. rewrite !assign_all_name. apply Hsame.
    destruct (Hgroups gm) as [_ Hmembers]; [rewrite elem_of_app; auto|].
    rewrite Hmembers in Hm. by apply members_of_subseteq in Hm as [? _]. }
  exists hp2'. split.
  - rewrite (valid_region_unfold fs cwd path mask_value hp2 ms st front most lm lt)
      by done.
    by rewrite Hothers2.
  - intros m Hm. apply Hgrid.
    destruct (Hall m Hm) as (grid & Hg & Hin).
    assert (Hgm : (grid, members_of fs cwd path hp ms grid) ∈ front ++ [most]).
    { rewrite <- Hsorted, (sorted_Permutation count_key). apply Hitems.
      split; [|done]. intros Hnil. rewrite Hnil in Hin. by apply elem_of_nil in Hin. }
    apply elem_of_app in Hgm as [Hgm|Hgm].
    + left. eexists. split; [exact Hgm | done].
    + right. apply list_elem_of_singleton in Hgm as <-. simpl.
      rewrite !assign_all_grid. by rewrite !decide_True.
Qed.

(** X19 ([valid_region], what it reads).  The geometry, the grids and
    the grid names of a call depend on the measurements through their
    paths and names only: with other bands, layers or earlier grid names
    the call gives the same result. *)
Theorem valid_region_reads fs cwd path mask_value hp hp2 ms hp' geom grids :
  (forall m, m ∈ ms ->
     MeasurementDoc.path (hp2 m) = MeasurementDoc.path (hp m)
     /\ MeasurementDoc.name (hp2 m) = MeasurementDoc.name (hp m)) ->
  valid_region fs cwd path mask_value hp ms = Ok (hp', (geom, grids)) ->
  exists hp2',
    valid_region fs cwd path mask_value hp2 ms = Ok (hp2', (geom, grids))
    /\ forall m, m ∈ ms -> MeasurementDoc.grid (hp2' m) = MeasurementDoc.grid (hp' m).
Proof. apply valid_region_ext. Qed.

Lemma valid_region_reads_witness :
  exists hp' geom grids,
    valid_region Scene.fs Scene.cwd Scene.root None Scene.hp [0; 2; 1]
    = Ok (hp', (geom, grids))
    /\ exists hp2',
         valid_region Scene.fs Scene.cwd Scene.root None
           (fun r => MeasurementDoc.mk (MeasurementDoc.path (Scene.hp r)) None
                       (Some "layer") "earlier" (MeasurementDoc.name (Scene.hp r)))
           [0; 2; 1]
         = Ok (hp2', (geom, grids))
         /\ forall m, m ∈ [0; 2; 1] ->
              MeasurementDoc.grid (hp2' m) = MeasurementDoc.grid (hp' m).
Proof.
  eexists _, _, _. split; [reflexivity|].
  eapply (valid_region_reads Scene.fs Scene.cwd Scene.root None Scene.hp
            (fun r => MeasurementDoc.mk (MeasurementDoc.path (Scene.hp r)) None
                        (Some "layer") "earlier" (MeasurementDoc.name (Scene.hp r)))
            [0; 2; 1]); [|reflexivity].
  intros m _. split; reflexivity.
Defined.

(** X20 ([valid_region], called again).  A second call on the
    measurements a first call has updated returns the same geometry and
    grids, and leaves every measurement as the first call left it. *)
Theorem valid_region_idempotent fs cwd path mask_value hp ms hp' geom grids :
  valid_region fs cwd path mask_value hp ms = Ok (hp', (geom, grids)) ->
  exists hp'',
    valid_region fs cwd path mask_value hp' ms = Ok (hp'', (geom, grids))
    /\ forall r, hp'' r = hp' r.
Proof.
  intros Hvr.
  pose proof (valid_region_writes _ _ _ _ _ _ _ _ Hvr) as Hframe.
  destruct (valid_region_ext fs cwd path mask_value hp hp' ms hp' geom grids)
    as (hp'' & Hvr2 & Hgrid); [|done|].
  { intros m _. destruct (Hframe m) as [-> _]. done. }
  exists hp''. split; [done|]. intros r.
  destruct (valid_region_writes _ _ _ _ _ _ _ _ Hvr2 r) as [Hr Hout].
  destruct (decide (r ∈ ms)) as [Hin|Hnotin]; [|by apply Hout].
  rewrite Hr, (Hgrid r Hin). by destruct (hp' r).
Qed.

Lemma valid_region_idempotent_witness :
  exists hp' geom grids,
    valid_region Scene.fs Scene.cwd Scene.root None Scene.hp [2; 0; 1]
    = Ok (hp', (geom, grids))
    /\ exists hp'',
         valid_region Scene.fs Scene.cwd Scene.root None hp' [2; 0; 1]
         = Ok (hp'', (geom, grids))
         /\ forall r, hp'' r = hp' r.
Proof.
  eexists _, _, _. split; [reflexivity|].
  eapply (valid_region_idempotent Scene.fs Scene.cwd Scene.root None Scene.hp [2; 0; 1]).
  reflexivity.
Defined.

(** *** Ties *)

Section SortedStable.
Context {A : Type} (key : A -> nat).

Lemma insert_by_key_last x y l :
  last l = Some x -> key y <= key x -> last (insert_by_key key y l) = Some x.
Proof.
  induction l as [|z l IH]; intros Hlast Hle; [done|]. cbn [insert_by_key].
  destruct (key y <=? key z)%nat eqn:Hyz.
  - by rewrite last_cons, Hlast.
  - rewrite last_cons in Hlast |- *. destruct (last l) as [w|] eqn:Hl.
    + by rewrite IH.
    + injection Hlast as ->. apply Nat.leb_gt in Hyz. lia.
Qed.

Lemma insert_by_key_greatest x l :
  (forall y, y ∈ l -> key y < key x) -> insert_by_key key x l = l ++ [x].
Proof.
  induction l as [|z l IH]; intros Hlt; [done|]. cbn [insert_by_key].
  assert (key z < key x) as Hz by (apply Hlt; left).
  destruct (key x <=? key z)%nat eqn:Hxz; [apply Nat.leb_le in Hxz; lia|].
  rewrite IH; [done|]. intros y Hy. apply Hlt. by right.
Qed.

(** The sort is stable: of the elements with the greatest key, the one
    that comes last in the input comes last in the output. *)
Lemma sorted_last_stable l1 x l2 :
  (forall y, y ∈ l1 -> key y <= key x) ->
  (forall y, y ∈ l2 -> key y < key x) ->
  last (sorted key (l1 ++ x :: l2)) = Some x.
Proof.
  intros Hle Hlt. induction l1 as [|y l1 IH]; simpl.
  - rewrite insert_by_key_greatest; [apply last_snoc|].
    intros y Hy. apply Hlt. by rewrite <- (sorted_Permutation key).
  - apply insert_by_key_last; [|apply Hle; left].
    apply IH. intros z Hz. apply Hle. by right.
Qed.

End SortedStable.

Lemma dict_keys_append dm grid m :
  dict_keys (defaultdict_append dm grid m)
  = if decide (grid ∈ dict_keys dm) then dict_keys dm else dict_keys dm ++ [grid].
Proof. unfold defaultdict_append. destruct (dict_get dm grid); apply dict_keys_set. Qed.

(** The groups are kept in the order in which their grids are first met. *)
Lemma loop_keys fs cwd path mask_value hp ms : forall st st',
  loop fs cwd path mask_value hp st ms = Ok st' ->
  exists later,
    dict_keys (measurements_by_grid st') = dict_keys (measurements_by_grid st) ++ later
    /\ forall grid, grid ∈ later ->
         exists m, m ∈ ms /\ grid_of fs cwd path hp m = Some grid.
Proof.
  induction ms as [|m ms IH]; intros st st' Hloop; simpl in Hloop.
  - injection Hloop as <-. exists []. split; [by rewrite app_nil_r|].
    intros grid Hin. by apply elem_of_nil in Hin.
  - inv_bind Hloop. rename a into st1.
    apply loop_body_Ok in Ha as (ds & pixels & Hds & _ & Hst1). cbv zeta in Hst1.
    destruct (IH _ _ Hloop) as (later & Hkeys & Hlater).
    assert (Hm : grid_of fs cwd path hp m = Some (grid_of_raster ds)).
    { unfold grid_of. by rewrite Hds. }
    rewrite Hst1 in Hkeys. cbn [measurements_by_grid] in Hkeys.
    rewrite dict_keys_append in Hkeys.
    destruct (decide (grid_of_raster ds ∈ dict_keys (measurements_by_grid st))).
    + exists later. split; [done|]. intros grid Hin.
      destruct (Hlater grid Hin) as (m' & Hm' & Hg). exists m'. split; [by right|done].
    + exists (grid_of_raster ds :: later). split.
      * by rewrite Hkeys, <- app_assoc.
      * intros grid Hin. apply elem_of_cons in Hin as [->|Hin].
        -- exists m. split; [left|done].
        -- destruct (Hlater grid Hin) as (m' & Hm' & Hg).
           exists m'. split; [by right|done].
Qed.

(** The members of the group sorted last are filed under "default". *)
Lemma valid_region_default_group fs cwd path mask_value hp ms hp' out :
  valid_region fs cwd path mask_value hp ms = Ok (hp', out) ->
  exists st most,
    loop fs cwd path mask_value hp loop_init ms = Ok st
    /\ last (sorted count_key (dict_items (measurements_by_grid st))) = Some most
    /\ forall m, m ∈ ms -> grid_of fs cwd path hp m = Some (fst most) ->
                 MeasurementDoc.grid (hp' m) = "default".
Proof.
  destruct out as [geom grids]. intros Hvr.
  apply valid_region_Ok in Hvr
    as (st & front & most & hp1 & lm & lt & Hne & Hloop & Hsorted & Hdef & Hothers & _).
  exists st, most. split; [done|]. split; [by rewrite Hsorted, last_snoc|].
  pose proof (sorted_groups_members fs cwd path mask_value hp ms st front most
                Hloop Hsorted) as Hgroups.
  assert (Hnd : NoDup (fst <$> front ++ [most])).
  { pose proof (loop_invariant_loop fs cwd path mask_value hp ms [] _ _
                  (loop_invariant_init fs cwd path mask_value hp) Hloop) as Hinv.
    simpl in Hinv. apply groups_of_invariant in Hinv as (Hkeys & _).
    by rewrite <- Hsorted, (sorted_Permutation count_key). }
  intros m Hm Hgrid.
  apply name_grid_Ok in Hdef as (_ & _ & Hgrid1 & _). simpl in Hgrid1.
  apply name_grids_Ok in Hothers as (_ & _ & Hkeep & _).
  rewrite Hkeep, Hgrid1.
  - rewrite decide_True; [done|].
    destruct (Hgroups most) as [_ ->]; [rewrite elem_of_app, list_elem_of_singleton; auto|].
    unfold members_of. by apply list_elem_of_filter.
  - intros gm Hgm Hin.
    destruct (Hgroups gm) as [_ Hmembers]; [rewrite elem_of_app; auto|].
    rewrite Hmembers in Hin. apply members_of_subseteq in Hin as [_ Hg].
    rewrite Hgrid in Hg. injection Hg as Hg.
    rewrite fmap_app in Hnd. apply NoDup_app in Hnd as (_ & Hdisj & _).
    apply (Hdisj (fst gm)); [apply list_elem_of_fmap; eauto|].
    rewrite <- Hg. simpl. left.
Qed.

(** X21 ([valid_region], ties).  Of the grids with the most measurements
    the one that is met last in the collection is named "default": the
    sort of the groups is stable and the last group of the sorted list is
    taken.  Here [m] is the first measurement on [grid], no grid has more
    measurements than [grid], and every other grid with as many is met
    before [m]. *)
Theorem valid_region_tie_default fs cwd path mask_value hp before m after hp' out grid :
  valid_region fs cwd path mask_value hp (before ++ m :: after) = Ok (hp', out) ->
  grid_of fs cwd path hp m = Some grid ->
  (forall m', m' ∈ before -> grid_of fs cwd path hp m' <> Some grid) ->
  (forall other,
     length (members_of fs cwd path hp (before ++ m :: after) other)
     <= length (members_of fs cwd path hp (before ++ m :: after) grid)) ->
  (forall other,
     other <> grid ->
     length (members_of fs cwd path hp (before ++ m :: after) other)
     = length (members_of fs cwd path hp (before ++ m :: after) grid) ->
     exists m', m' ∈ before /\ grid_of fs cwd path hp m' = Some other) ->
  forall m', m' ∈ before ++ m :: after -> grid_of fs cwd path hp m' = Some grid ->
             MeasurementDoc.grid (hp' m') = "default".
Proof.
  intros Hvr Hm Hfirst Hmost Hties.
  destruct (valid_region_default_group _ _ _ _ _ _ _ _ Hvr)
    as (st & most & Hloop & Hlast & Hdefault).
  assert (fst most = grid) as Hgrid; [|by rewrite Hgrid in Hdefault].
  pose proof (loop_invariant_loop fs cwd path mask_value hp _ [] _ _
                (loop_invariant_init fs cwd path mask_value hp) Hloop) as Hinv.
  simpl in Hinv. apply groups_of_invariant in Hinv as (Hnd & Hgroups & _).
  rewrite loop_app in Hloop. inv_bind Hloop. rename a into stb.
  pose proof (loop_invariant_loop fs cwd path mask_value hp _ [] _ _
                (loop_invariant_init fs cwd path mask_value hp) Ha) as Hinvb.
  simpl in Hinvb.
  destruct (loop_keys _ _ _ _ _ _ _ _ Ha) as (keysb & Hkeysb & Hfromb).
  simpl in Hkeysb.
  destruct (loop_keys _ _ _ _ _ _ _ _ Hloop) as (later & Hkeys & Hlater).
  assert (Hfresh : grid ∉ dict_keys (measurements_by_grid stb)).
  { rewrite Hkeysb. intros Hin. destruct (Hfromb grid Hin) as (m' & Hm' & Hg).
    by apply (Hfirst m'). }
  destruct later as [|first later].
  { exfalso. simpl in Hloop. inv_bind Hloop.
    apply loop_body_Ok in Ha0 as (ds & pixels & Hds & _ & Hst1). cbv zeta in Hst1.
    destruct (loop_keys _ _ _ _ _ _ _ _ Hloop) as (later' & Hkeys' & _).
    rewrite Hst1 in Hkeys'. cbn [measurements_by_grid] in Hkeys'.
    rewrite dict_keys_append in Hkeys'.
    assert (grid_of_raster ds = grid) as Hg.
    { unfold grid_of in Hm. rewrite Hds in Hm. by injection Hm. }
    rewrite Hg, decide_False in Hkeys' by done.
    rewrite Hkeys', app_nil_r, <- app_assoc in Hkeys.
    apply (f_equal length) in Hkeys. rewrite !length_app in Hkeys. simpl in Hkeys. lia. }
  assert (first = grid /\ forall other, other ∈ later ->
            exists m', m' ∈ after /\ grid_of fs cwd path hp m' = Some other)
    as [-> Hafter].
  { simpl in Hloop. inv_bind Hloop.
    apply loop_body_Ok in Ha0 as (ds & pixels & Hds & _ & Hst1). cbv zeta in Hst1.
    destruct (loop_keys _ _ _ _ _ _ _ _ Hloop) as (later' & Hkeys' & Hlater').
    rewrite Hst1 in Hkeys'. cbn [measurements_by_grid] in Hkeys'.
    rewrite dict_keys_append in Hkeys'.
    assert (grid_of_raster ds = grid) as Hg.
    { unfold grid_of in Hm. rewrite Hds in Hm. by injection Hm. }
    rewrite Hg, decide_False in Hkeys' by done.
    rewrite Hkeys', <- app_assoc in Hkeys. apply app_inv_head in Hkeys.
    simpl in Hkeys. injection Hkeys as <- <-. done. }
  unfold dict_keys in Hkeys at 1.
  apply fmap_app_inv in Hkeys as (l1 & l2' & Hl1 & Hl2 & Hitems).
  symmetry in Hl2. apply fmap_cons_inv in Hl2 as (x & l2 & Hx & Hl2 & ->).
  symmetry in Hx.
  assert (Hcount : forall y, y ∈ dict_items (measurements_by_grid st) ->
            count_key y
            = length (members_of fs cwd path hp (before ++ m :: after) (fst y))).
  { intros [g members] Hy. apply Hgroups in Hy as [_ ->]. done. }
  unfold dict_items in *. rewrite Hitems in Hlast, Hcount, Hnd.
  rewrite (sorted_last_stable count_key l1 x l2) in Hlast.
  - injection Hlast as <-. done.
  - intros y Hy. rewrite !Hcount, Hx; [apply Hmost|..].
    + rewrite elem_of_app, elem_of_cons. auto.
    + rewrite elem_of_app. auto.
  - intros y Hy.
    assert (Hy' : y ∈ l1 ++ x :: l2) by (rewrite elem_of_app, elem_of_cons; auto).
    assert (Hx' : x ∈ l1 ++ x :: l2) by (rewrite elem_of_app, elem_of_cons; auto).
    rewrite (Hcount y Hy'), (Hcount x Hx'), Hx.
    rewrite fmap_app, fmap_cons in Hnd.
    apply NoDup_app in Hnd as (_ & Hdisj & Hnd2).
    apply NoDup_cons in Hnd2 as [Hnotin _].
    assert (Hne : fst y <> grid).
    { intros Heq. apply Hnotin. rewrite Hx, <- Heq. apply list_elem_of_fmap. eauto. }
    destruct (Nat.lt_total
                (length (members_of fs cwd path hp (before ++ m :: after) (fst y)))
                (length (members_of fs cwd path hp (before ++ m :: after) grid)))
      as [Hlt|[Heq|Hgt]]; [done| |specialize (Hmost (fst y)); lia].
    exfalso. destruct (Hties (fst y) Hne Heq) as (m' & Hm' & Hg).
    apply (Hdisj (fst y)).
    + rewrite <- Hl1. apply dict_get_is_Some_keys.
      rewrite (inv_groups _ _ _ _ _ _ _ Hinvb).
      assert (Hin : m' ∈ members_of fs cwd path hp before (fst y)).
      { unfold members_of. by apply list_elem_of_filter. }
      destruct (members_of fs cwd path hp before (fst y)); [|done].
      by apply elem_of_nil in Hin.
    + right. apply list_elem_of_fmap. eauto.
Qed.

Lemma valid_region_tie_default_witness :
  exists hp' out,
    valid_region Scene.fs Scene.cwd Scene.root None Scene.hp ([0] ++ 2 :: [])
    = Ok (hp', out)
    /\ grid_of Scene.fs Scene.cwd Scene.root Scene.hp 2 = Some (grid_of_raster Scene.pan)
    /\ (length (members_of Scene.fs Scene.cwd Scene.root Scene.hp [0; 2]
                           (grid_of_raster Scene.red))
        = length (members_of Scene.fs Scene.cwd Scene.root Scene.hp [0; 2]
                             (grid_of_raster Scene.pan)))
    /\ forall m', m' ∈ [0] ++ 2 :: [] ->
         grid_of Scene.fs Scene.cwd Scene.root Scene.hp m'
         = Some (grid_of_raster Scene.pan) ->
         MeasurementDoc.grid (hp' m') = "default".
Proof.
  assert (Hred : grid_of Scene.fs Scene.cwd Scene.root Scene.hp 0
                 = Some (grid_of_raster Scene.red)) by reflexivity.
  assert (Hpan : grid_of Scene.fs Scene.cwd Scene.root Scene.hp 2
                 = Some (grid_of_raster Scene.pan)) by reflexivity.
  assert (Hne : grid_of_raster Scene.red <> grid_of_raster Scene.pan) by discriminate.
  assert (Hmembers : forall other,
            members_of Scene.fs Scene.cwd Scene.root Scene.hp ([0] ++ 2 :: []) other
            = (if decide (Some (grid_of_raster Scene.red) = Some other) then [0] else [])
              ++ (if decide (Some (grid_of_raster Scene.pan) = Some other) then [2]
                  else [])).
  { intros other. unfold members_of. cbn [app].
    rewrite !filter_cons, filter_nil, Hred, Hpan.
    by destruct (decide (Some (grid_of_raster Scene.red) = Some other)),
                (decide (Some (grid_of_raster Scene.pan) = Some other)). }
  eexists _, _. split; [reflexivity|]. split; [exact Hpan|]. split; [reflexivity|].
  eapply (valid_region_tie_default Scene.fs Scene.cwd Scene.root None Scene.hp
            [0] 2 [] _ _ (grid_of_raster Scene.pan)).
  - reflexivity.
  - exact Hpan.
  - intros m' Hm'. apply list_elem_of_singleton in Hm' as ->. rewrite Hred. congruence.
  - intros other. rewrite !Hmembers.
    rewrite (decide_False (P := Some (grid_of_raster Scene.red)
                               = Some (grid_of_raster Scene.pan))) by congruence.
    rewrite (decide_True (P := Some (grid_of_raster Scene.pan)
                              = Some (grid_of_raster Scene.pan))) by done.
    destruct (decide (Some (grid_of_raster Scene.red) = Some other)) as [Hr|Hr],
             (decide (Some (grid_of_raster Scene.pan) = Some other)) as [Hp|Hp];
      simpl; try lia. congruence.
  - intros other Hother. rewrite !Hmembers.
    rewrite (decide_False (P := Some (grid_of_raster Scene.red)
                               = Some (grid_of_raster Scene.pan))) by congruence.
    rewrite (decide_True (P := Some (grid_of_raster Scene.pan)
                              = Some (grid_of_raster Scene.pan))) by done.
    destruct (decide (Some (grid_of_raster Scene.red) = Some other)) as [Hr|Hr],
             (decide (Some (grid_of_raster Scene.pan) = Some other)) as [Hp|Hp];
      simpl; try lia; try congruence.
    intros _. exists 0. split; [left|]. by rewrite Hred.
Defined.
